(** * ts-transformer-demo: the decimal.js rewriting loader

    A shallow embedding of [src/loader.ts] (and of the older [Big] variant
    of the same walker) together with the properties of its rewriting
    rules, of the tree walker and of the import check.

    The TypeScript syntax tree is a graph of mutable objects: the walker
    compares nodes by reference ([expression !== node]) and assigns to
    fields of a parent node.  The embedding therefore keeps the nodes in an
    explicit store.  A reference is a position in the store, the factory
    functions of the compiler API allocate at its end, and an assignment to
    a field overwrites one cell. *)

From stdpp Require Import base decidable option list strings gmap.

Open Scope string_scope.
Open Scope list_scope.

(** ** Syntax kinds

    The members of [ts.SyntaxKind] that the program tests for, creates, or
    that occur in the trees used below. *)

Inductive SyntaxKind : Set :=
| EndOfFileToken
| NumericLiteral
| StringLiteral
| LessThanToken
| GreaterThanToken
| EqualsEqualsEqualsToken
| PlusToken
| MinusToken
| AsteriskToken
| AsteriskAsteriskToken
| SlashToken
| PercentToken
| ExclamationToken
| AmpersandAmpersandToken
| EqualsToken
| Identifier
| PropertyAccessExpression
| CallExpression
| NewExpression
| ParenthesizedExpression
| PrefixUnaryExpression
| BinaryExpression
| VariableStatement
| ExpressionStatement
| VariableDeclaration
| VariableDeclarationList
| ImportDeclaration
| ImportClause
| NamespaceImport
| NamedImports
| ImportSpecifier
| SourceFile.

#[global] Instance SyntaxKind_eq_dec : EqDecision SyntaxKind.
Proof. solve_decision. Defined.

(** ** JavaScript values that reach an identifier

    [escapedText] of a parsed identifier is a string.  A lookup in an object
    literal can also produce [undefined] or a member inherited from
    [Object.prototype]. *)

Inductive JsValue : Set :=
| JsUndefined
| JsString (s : string)
| JsInherited (member : string).

#[global] Instance JsValue_eq_dec : EqDecision JsValue.
Proof. solve_decision. Defined.

(** ToBoolean. *)
Definition truthy (v : JsValue) : bool :=
  match v with
  | JsUndefined => false
  | JsString s => negb (String.eqb s "")
  | JsInherited _ => true
  end.

(** ToPropertyKey, for the values above. *)
Definition toPropertyKey (v : JsValue) : string :=
  match v with
  | JsUndefined => "undefined"
  | JsString s => s
  | JsInherited m => String.append "function " (String.append m "() { [native code] }")
  end.

(** The property names every object literal inherits from
    [Object.prototype]. *)
Definition ObjectPrototype : list string :=
  [ "constructor"; "hasOwnProperty"; "isPrototypeOf"; "propertyIsEnumerable";
    "toLocaleString"; "toString"; "valueOf";
    "__proto__"; "__defineGetter__"; "__defineSetter__";
    "__lookupGetter__"; "__lookupSetter__" ].

(** [obj[key]] for an object literal [obj] with string values: own
    properties first, then the prototype. *)
Definition getProperty (obj : gmap string string) (key : JsValue) : JsValue :=
  match obj !! toPropertyKey key with
  | Some v => JsString v
  | None =>
      if bool_decide (toPropertyKey key ∈ ObjectPrototype)
      then JsInherited (toPropertyKey key)
      else JsUndefined
  end.

(** ** Nodes and the store *)

(** A reference is a position in the store. *)
Abbreviation ref := nat (only parsing).

Inductive Node : Set :=
| MkToken (kind : SyntaxKind)
| MkNumericLiteral (text : string)
| MkStringLiteral (text : string)
| MkIdentifier (escapedText : JsValue)
| MkPropertyAccessExpression (expression name : ref)
| MkCallExpression (expression : ref) (arguments : list ref)
| MkNewExpression (expression : ref) (arguments : option (list ref))
| MkParenthesizedExpression (expression : ref)
| MkPrefixUnaryExpression (operator : SyntaxKind) (operand : ref)
| MkBinaryExpression (left operatorToken right : ref)
| MkVariableStatement (declarationList : ref)
| MkExpressionStatement (expression : ref)
| MkVariableDeclaration (name : ref) (initializer : option ref)
| MkVariableDeclarationList (declarations : list ref)
| MkImportDeclaration (importClause : option ref) (moduleSpecifier : ref)
| MkImportClause (name : option ref) (namedBindings : option ref)
| MkNamespaceImport (name : ref)
| MkNamedImports (elements : list ref)
| MkImportSpecifier (propertyName : option ref) (name : ref)
| MkSourceFile (statements : list ref) (endOfFileToken : ref).

#[global] Instance Node_eq_dec : EqDecision Node.
Proof. solve_decision. Defined.

(** [node.kind] *)
Definition kind (n : Node) : SyntaxKind :=
  match n with
  | MkToken k => k
  | MkNumericLiteral _ => NumericLiteral
  | MkStringLiteral _ => StringLiteral
  | MkIdentifier _ => Identifier
  | MkPropertyAccessExpression _ _ => PropertyAccessExpression
  | MkCallExpression _ _ => CallExpression
  | MkNewExpression _ _ => NewExpression
  | MkParenthesizedExpression _ => ParenthesizedExpression
  | MkPrefixUnaryExpression _ _ => PrefixUnaryExpression
  | MkBinaryExpression _ _ _ => BinaryExpression
  | MkVariableStatement _ => VariableStatement
  | MkExpressionStatement _ => ExpressionStatement
  | MkVariableDeclaration _ _ => VariableDeclaration
  | MkVariableDeclarationList _ => VariableDeclarationList
  | MkImportDeclaration _ _ => ImportDeclaration
  | MkImportClause _ _ => ImportClause
  | MkNamespaceImport _ => NamespaceImport
  | MkNamedImports _ => NamedImports
  | MkImportSpecifier _ _ => ImportSpecifier
  | MkSourceFile _ _ => SourceFile
  end.

Abbreviation Heap := (list Node) (only parsing).

(** ** Computations: store passing with exceptions

    [Throws] is a JavaScript exception leaving the function.  [Stuck] and
    [OutOfFuel] belong to the embedding only: a reference outside the
    store or a cast to a node type the node does not have, and a recursion
    deeper than the budget given. *)

Inductive JsError : Set :=
| UnsupportedNodeKind (detail : SyntaxKind)  (* loader.ts, line 15 *)
| UnknownNode  (* part_000, line 8: the message ends in the text of the node
                  object, which is the same for every node *)
| TypeError.   (* a property read on [undefined] *)

Inductive Outcome (A : Type) : Type :=
| Returns (a : A) (h : Heap)
| Throws (e : JsError)
| Stuck
| OutOfFuel.

Arguments Returns {A} a h.
Arguments Throws {A} e.
Arguments Stuck {A}.
Arguments OutOfFuel {A}.

Definition M (A : Type) : Type := Heap -> Outcome A.

Definition ret {A} (a : A) : M A := fun h => Returns a h.

Definition bind {A B} (m : M A) (k : A -> M B) : M B :=
  fun h =>
    match m h with
    | Returns a h' => k a h'
    | Throws e => Throws e
    | Stuck => Stuck
    | OutOfFuel => OutOfFuel
    end.

Notation "'do' x <- m ; k" := (bind m (fun x => k))
  (at level 10, x name, m at level 100, k at level 200,
   format "'[v' 'do'  x  <-  m ; '/' k ']'").

Definition throw {A} (e : JsError) : M A := fun _ => Throws e.
Definition stuck {A} : M A := fun _ => Stuck.
Definition outOfFuel {A} : M A := fun _ => OutOfFuel.

(** Reading the object behind a reference. *)
Definition deref (r : ref) : M Node :=
  fun h => match h !! r with
           | Some n => Returns n h
           | None => Stuck
           end.

(** Allocation of a synthesized node. *)
Definition alloc (n : Node) : M ref :=
  fun h => Returns (List.length h) (h ++ [n]).

(** Assignment to the fields of an existing object. *)
Definition store (r : ref) (n : Node) : M unit :=
  fun h => if bool_decide (r < List.length h) then Returns tt (<[r := n]> h) else Stuck.

(** ** The factory functions of the compiler API

    Each allocates the node it returns. *)

Definition createIdentifier (text : JsValue) : M ref :=
  alloc (MkIdentifier text).

Definition createNew (expression : ref) (argumentsArray : option (list ref)) : M ref :=
  alloc (MkNewExpression expression argumentsArray).

Definition createPropertyAccess (expression name : ref) : M ref :=
  alloc (MkPropertyAccessExpression expression name).

Definition createCall (expression : ref) (argumentsArray : list ref) : M ref :=
  alloc (MkCallExpression expression argumentsArray).

Definition createLiteral (value : string) : M ref :=
  alloc (MkStringLiteral value).

Definition createImportClause (name : option ref) (namedBindings : option ref) : M ref :=
  alloc (MkImportClause name namedBindings).

Definition createImportDeclaration (importClause : option ref) (moduleSpecifier : ref) : M ref :=
  alloc (MkImportDeclaration importClause moduleSpecifier).

(** ** The rewriting rules of [src/loader.ts] *)

Definition TRIG_FUNCTIONS : gmap string string :=
  <["sin" := "sin"]> (<["cos" := "cos"]> (<["tan" := "tan"]> ∅)).

(** The [switch] over [operatorToken.kind]. *)
Definition operatorMethod (k : SyntaxKind) : option string :=
  match k with
  | SlashToken => Some "div"
  | AsteriskToken => Some "times"
  | PlusToken => Some "plus"
  | MinusToken => Some "minus"
  | _ => None
  end.

(** Lines 38-49: the replacement [new Decimal(left).operator(right)].  The
    arguments of a call are evaluated from left to right, so the nodes are
    created from the inside out. *)
Definition createDecimalCall (left : ref) (operator : string) (right : ref) : M ref :=
  do decimal <- createIdentifier (JsString "Decimal");
  do construct <- createNew decimal (Some [left]);
  do method <- createIdentifier (JsString operator);
  do access <- createPropertyAccess construct method;
  createCall access [right].

(** [rewriteBinaryExpression], with the classifier it calls on the two
    operands as a parameter; [ensureFixedPoint] below closes the
    recursion. *)
Definition rewriteBinaryExpressionWith (classify : ref -> M ref) (node : ref) : M ref :=
  do n <- deref node;
  match n with
  | MkBinaryExpression l operatorToken r =>
      do tok <- deref operatorToken;
      match operatorMethod (kind tok) with
      | None => ret node
      | Some operator =>
          do left <- classify l;
          do right <- classify r;
          createDecimalCall left operator right
      end
  | _ => stuck
  end.

(** [escapedText] of a node when it is an identifier, [undefined]
    otherwise (the variable stays unassigned). *)
Definition identifierText (n : Node) : JsValue :=
  match n with
  | MkIdentifier t => t
  | _ => JsUndefined
  end.

Definition rewriteCallExpression (node : ref) : M ref :=
  do n <- deref node;
  match n with
  | MkCallExpression callee args =>
      do c <- deref callee;
      match c with
      | MkPropertyAccessExpression paExpression paName =>
          do e <- deref paExpression;
          let namespace := identifierText e in
          if bool_decide (namespace = JsString "Math") then
            do nm <- deref paName;
            let method := identifierText nm in
            let decimalMethod := getProperty TRIG_FUNCTIONS method in
            if truthy decimalMethod then
              do decimal <- createIdentifier (JsString "Decimal");
              do name <- createIdentifier decimalMethod;
              do access <- createPropertyAccess decimal name;
              createCall access args
            else ret node
          else ret node
      | _ => ret node
      end
  | _ => stuck
  end.

Fixpoint ensureFixedPoint (fuel : nat) (node : ref) {struct fuel} : M ref :=
  match fuel with
  | O => outOfFuel
  | S fuel' =>
      do n <- deref node;
      if bool_decide (NumericLiteral = kind n) then ret node
      else if bool_decide (kind n = BinaryExpression)
           then rewriteBinaryExpressionWith (ensureFixedPoint fuel') node
      else if bool_decide (kind n = CallExpression)
           then rewriteCallExpression node
      else throw (UnsupportedNodeKind (kind n))
  end.

(** [fuel] bounds the nesting depth of the operands that can be
    classified; none is needed when the operator is not arithmetic. *)
Definition rewriteBinaryExpression (fuel : nat) (node : ref) : M ref :=
  rewriteBinaryExpressionWith (ensureFixedPoint fuel) node.

(** ** [ts.forEachChild]

    The children of a node, grouped by field in the order in which
    [forEachChild] visits them.  Absent optional fields contribute
    nothing. *)
Definition fields (n : Node) : list (list ref) :=
  match n with
  | MkToken _ | MkNumericLiteral _ | MkStringLiteral _ | MkIdentifier _ => []
  | MkPropertyAccessExpression e name => [[e]; [name]]
  | MkCallExpression e args => [[e]; args]
  | MkNewExpression e args => [[e]; default [] args]
  | MkParenthesizedExpression e => [[e]]
  | MkPrefixUnaryExpression _ operand => [[operand]]
  | MkBinaryExpression l op r => [[l]; [op]; [r]]
  | MkVariableStatement dl => [[dl]]
  | MkExpressionStatement e => [[e]]
  | MkVariableDeclaration name init => [[name]; option_list init]
  | MkVariableDeclarationList ds => [ds]
  | MkImportDeclaration clause spec => [option_list clause; [spec]]
  | MkImportClause name bindings => [option_list name; option_list bindings]
  | MkNamespaceImport name => [[name]]
  | MkNamedImports elements => [elements]
  | MkImportSpecifier propertyName name => [option_list propertyName; [name]]
  | MkSourceFile statements eof => [statements; [eof]]
  end.

(** The callbacks of this program always return [undefined], so no visit
    ends the iteration early.  What a callback closes over and assigns to
    is threaded through as [acc]. *)
Fixpoint visitNodes {S : Type} (cb : S -> ref -> M S) (acc : S) (nodes : list ref) : M S :=
  match nodes with
  | [] => ret acc
  | child :: rest => do acc' <- cb acc child; visitNodes cb acc' rest
  end.

(** A field is read when its turn comes, after the visits of the fields
    before it: an assignment made to the node by one of those visits is
    seen. *)
Fixpoint visitFields {S : Type} (cb : S -> ref -> M S) (acc : S) (node : ref)
    (indices : list nat) : M S :=
  match indices with
  | [] => ret acc
  | i :: rest =>
      do n <- deref node;
      do acc' <- visitNodes cb acc (default [] (fields n !! i));
      visitFields cb acc' node rest
  end.

Definition forEachChild {S : Type} (cb : S -> ref -> M S) (acc : S) (node : ref) : M S :=
  do n <- deref node;
  visitFields cb acc node (seq 0 (List.length (fields n))).

(** ** The walker, [decimalify] *)

(** Lines 88-95 of [decimalifyChild]: the rule applied to a node that has a
    parent.  [None] is the variable [expression] left [undefined]. *)
Definition applyRule (fuel : nat) (node : ref) : M (option ref) :=
  do n <- deref node;
  match kind n with
  | BinaryExpression =>
      do e <- rewriteBinaryExpression fuel node; ret (Some e)
  | CallExpression =>
      do e <- rewriteCallExpression node; ret (Some e)
  | _ => ret None
  end.

(** Lines 97-105: the assignment into the parent.  ([console.log] in the
    second case writes to the console only and is left out.) *)
Definition attach (node nodeParent : ref) (expression : option ref) : M unit :=
  match expression with
  | Some e =>
      if bool_decide (e ≠ node) then
        do p <- deref nodeParent;
        match p with
        | MkVariableDeclaration name _ =>
            store nodeParent (MkVariableDeclaration name (Some e))
        | MkCallExpression callee _ =>
            store nodeParent (MkCallExpression callee [e])
        | _ => ret tt
        end
      else ret tt
  | None => ret tt
  end.

(** Line 108: [expression || node]. *)
Definition finalNode (expression : option ref) (node : ref) : ref :=
  default node expression.

(** Lines 85-108: everything [decimalifyChild] does before it descends;
    the result is [finalNode]. *)
Definition decimalifyNode (fuel : nat) (node : ref) (nodeParent : option ref) : M ref :=
  do expression <-
    match nodeParent with
    | Some p =>
        do expression <- applyRule fuel node;
        do _ <- attach node p expression;
        ret expression
    | None => ret None
    end;
  ret (finalNode expression node).

(** [fuel] bounds the depth of the recursion of the walker and of the
    classifier it calls. *)
Fixpoint decimalifyChild (fuel : nat) (node : ref) (nodeParent : option ref)
    {struct fuel} : M unit :=
  match fuel with
  | O => outOfFuel
  | S fuel' =>
      do final <- decimalifyNode fuel' node nodeParent;
      forEachChild (fun _ child => decimalifyChild fuel' child (Some final)) tt final
  end.

Definition decimalify (fuel : nat) (sourceFile : ref) : M unit :=
  decimalifyChild fuel sourceFile None.

(** ** The import check and the loader *)

(** Lines 121-134: the test the callback of [sourceFileHasDecimalJS] makes
    on one child of the source file. *)
Definition declaresDecimalJS (node : ref) : M bool :=
  do n <- deref node;
  match n with
  | MkImportDeclaration importClause moduleSpecifier =>
      do ms <- deref moduleSpecifier;
      match ms with
      | MkStringLiteral text =>
          if bool_decide (text ≠ "decimal.js") then ret false else
          match importClause with
          | None => ret false
          | Some clause =>
              do c <- deref clause;
              match c with
              | MkImportClause (Some name) _ =>
                  do i <- deref name;
                  match i with
                  | MkIdentifier escapedText =>
                      if bool_decide (escapedText ≠ JsString "Decimal")
                      then ret false else ret true
                  | _ => ret false
                  end
              | _ => ret false
              end
          end
      | _ => ret false
      end
  | _ => ret false
  end.

(** The callback, with the variable [importExists] it closes over. *)
Definition importCallback (importExists : bool) (node : ref) : M bool :=
  if importExists then ret importExists
  else declaresDecimalJS node.

Definition sourceFileHasDecimalJS (sourceFile : ref) : M bool :=
  forEachChild importCallback false sourceFile.

Definition updateSourceFileNode (node : ref) (statements : list ref) : M ref :=
  do n <- deref node;
  match n with
  | MkSourceFile _ eof => alloc (MkSourceFile statements eof)
  | _ => stuck
  end.

(** Lines 143-153 of [loader]: the import is added when the check fails.
    The result is the value of the variable [sourceFile] afterwards. *)
Definition ensureImport (sourceFile : ref) : M ref :=
  do found <- sourceFileHasDecimalJS sourceFile;
  if negb found then
    do n <- deref sourceFile;
    match n with
    | MkSourceFile statements _ =>
        do name <- createIdentifier (JsString "Decimal");
        do clause <- createImportClause (Some name) None;
        do specifier <- createLiteral "decimal.js";
        do declaration <- createImportDeclaration (Some clause) specifier;
        updateSourceFileNode sourceFile (declaration :: statements)
    | _ => stuck
    end
  else ret sourceFile.

(** [loader] between the parser and the printer, which are the compiler's:
    from the parsed source file to the source file that is printed. *)
Definition loader (fuel : nat) (sourceFile : ref) : M ref :=
  do sourceFile' <- ensureImport sourceFile;
  do _ <- decimalify fuel sourceFile';
  ret sourceFile'.

(** ** The older walker of [src/unnamed/part_000]

    The same rule with the [Big] type and without the call rule.  Here the
    rewriter answers [undefined], not the node, when the operator is not
    arithmetic; [None] stands for [undefined]. *)
Module Big.

Definition rewriteBinaryExpressionWith (classify : ref -> M (option ref))
    (node : ref) : M (option ref) :=
  do n <- deref node;
  match n with
  | MkBinaryExpression l operator r =>
      do tok <- deref operator;
      match operatorMethod (kind tok) with
      | None => ret None
      | Some bigOperator =>
          do left <- classify l;
          do right <- classify r;
          match left, right with
          | Some l', Some r' =>
              do big <- createIdentifier (JsString "Big");
              do construct <- createNew big (Some [l']);
              do method <- createIdentifier (JsString bigOperator);
              do access <- createPropertyAccess construct method;
              do call <- createCall access [r'];
              ret (Some call)
          | _, _ =>
              (* [ts.createNew] and [ts.createCall] read the kind of every
                 element of the argument array: on [undefined] that is a
                 TypeError *)
              throw TypeError
          end
      end
  | _ => stuck
  end.

Fixpoint ensureBig (fuel : nat) (node : ref) {struct fuel} : M (option ref) :=
  match fuel with
  | O => outOfFuel
  | S fuel' =>
      do n <- deref node;
      if bool_decide (NumericLiteral = kind n) then ret (Some node)
      else if bool_decide (kind n = BinaryExpression)
           then rewriteBinaryExpressionWith (ensureBig fuel') node
      else throw UnknownNode
  end.

Definition rewriteBinaryExpression (fuel : nat) (node : ref) : M (option ref) :=
  rewriteBinaryExpressionWith (ensureBig fuel) node.

(** Lines 47-57 of [bigifyChild]: what is done at a node before the
    descent into its children.  [parent] is the value of [node.parent]. *)
Definition bigifyNode (fuel : nat) (node : ref) (parent : option ref) : M unit :=
  match parent with
  | Some p =>
      do n <- deref node;
      match kind n with
      | BinaryExpression =>
          do expression <- rewriteBinaryExpression fuel node;
          match expression with
          | Some e =>
              do pn <- deref p;
              match pn with
              | MkExpressionStatement _ => ret tt
              | MkVariableDeclaration name _ =>
                  store p (MkVariableDeclaration name (Some e))
              | _ => ret tt
              end
          | None => ret tt
          end
      | _ => ret tt
      end
  | None => ret tt
  end.

End Big.

(** ** Reading a tree back from the store

    The expression or statement a reference stands for, as a term.  Used
    to state what a rewritten node means. *)

#[local] Unset Elimination Schemes.

Inductive Tree : Set :=
| TToken (kind : SyntaxKind)
| TNumericLiteral (text : string)
| TStringLiteral (text : string)
| TIdentifier (escapedText : JsValue)
| TPropertyAccess (expression name : Tree)
| TCall (expression : Tree) (arguments : list Tree)
| TNew (expression : Tree) (arguments : option (list Tree))
| TParenthesized (expression : Tree)
| TPrefixUnary (operator : SyntaxKind) (operand : Tree)
| TBinary (left operatorToken right : Tree)
| TVariableStatement (declarationList : Tree)
| TExpressionStatement (expression : Tree)
| TVariableDeclaration (name : Tree) (initializer : option Tree)
| TVariableDeclarationList (declarations : list Tree)
| TImportDeclaration (importClause : option Tree) (moduleSpecifier : Tree)
| TImportClause (name : option Tree) (namedBindings : option Tree)
| TNamespaceImport (name : Tree)
| TNamedImports (elements : list Tree)
| TImportSpecifier (propertyName : option Tree) (name : Tree)
| TSourceFile (statements : list Tree) (endOfFileToken : Tree).

#[local] Set Elimination Schemes.

Definition optM {A B} (f : A -> option B) (o : option A) : option (option B) :=
  match o with
  | None => Some None
  | Some a => Some <$> f a
  end.

(** One level: the node at the root, its children read by [sub]. *)
Definition treeOfNode (sub : ref -> option Tree) (n : Node) : option Tree :=
  match n with
  | MkToken k => Some (TToken k)
  | MkNumericLiteral t => Some (TNumericLiteral t)
  | MkStringLiteral t => Some (TStringLiteral t)
  | MkIdentifier t => Some (TIdentifier t)
  | MkPropertyAccessExpression e nm =>
      e' ← sub e; nm' ← sub nm; Some (TPropertyAccess e' nm')
  | MkCallExpression e args =>
      e' ← sub e; args' ← mapM sub args; Some (TCall e' args')
  | MkNewExpression e args =>
      e' ← sub e; args' ← optM (mapM sub) args; Some (TNew e' args')
  | MkParenthesizedExpression e => TParenthesized <$> sub e
  | MkPrefixUnaryExpression op e => TPrefixUnary op <$> sub e
  | MkBinaryExpression l op r =>
      l' ← sub l; op' ← sub op; r' ← sub r; Some (TBinary l' op' r')
  | MkVariableStatement dl => TVariableStatement <$> sub dl
  | MkExpressionStatement e => TExpressionStatement <$> sub e
  | MkVariableDeclaration nm init =>
      nm' ← sub nm; init' ← optM sub init; Some (TVariableDeclaration nm' init')
  | MkVariableDeclarationList ds => TVariableDeclarationList <$> mapM sub ds
  | MkImportDeclaration clause spec =>
      clause' ← optM sub clause; spec' ← sub spec;
      Some (TImportDeclaration clause' spec')
  | MkImportClause nm bindings =>
      nm' ← optM sub nm; bindings' ← optM sub bindings;
      Some (TImportClause nm' bindings')
  | MkNamespaceImport nm => TNamespaceImport <$> sub nm
  | MkNamedImports elements => TNamedImports <$> mapM sub elements
  | MkImportSpecifier pn nm =>
      pn' ← optM sub pn; nm' ← sub nm; Some (TImportSpecifier pn' nm')
  | MkSourceFile statements eof =>
      statements' ← mapM sub statements; eof' ← sub eof;
      Some (TSourceFile statements' eof')
  end.

Fixpoint treeOf (fuel : nat) (h : Heap) (r : ref) {struct fuel} : option Tree :=
  match fuel with
  | O => None
  | S fuel' => n ← h !! r; treeOfNode (treeOf fuel' h) n
  end.

(** [new Decimal(left).method(right)] *)
Definition decimalCall (left : Tree) (method : string) (right : Tree) : Tree :=
  TCall
    (TPropertyAccess
       (TNew (TIdentifier (JsString "Decimal")) (Some [left]))
       (TIdentifier (JsString method)))
    [right].

(** [Decimal.method(arguments)] *)
Definition decimalStaticCall (method : JsValue) (arguments : list Tree) : Tree :=
  TCall
    (TPropertyAccess (TIdentifier (JsString "Decimal")) (TIdentifier method))
    arguments.

(** ** Sample programs, as the parser lays them out *)

Module Samples.

Definition num (text : string) : Node := MkNumericLiteral text.
Definition ident (text : string) : Node := MkIdentifier (JsString text).

(** [1 < 2] at 3 and [-1] at 5 *)
Definition unsupported : Heap :=
  [ num "1"; MkToken LessThanToken; num "2"; MkBinaryExpression 0 1 2;
    num "1"; MkPrefixUnaryExpression MinusToken 4;
    MkExpressionStatement 3; MkExpressionStatement 5 ].

(** [7 / 2] at 3 *)
Definition division : Heap :=
  [ num "7"; MkToken SlashToken; num "2"; MkBinaryExpression 0 1 2 ].

(** [(1 + 2) * 3] at 7: the parser keeps the parentheses as a node *)
Definition parenthesized : Heap :=
  [ num "1"; MkToken PlusToken; num "2"; MkBinaryExpression 0 1 2;
    MkParenthesizedExpression 3;
    MkToken AsteriskToken; num "3"; MkBinaryExpression 4 5 6 ].

(** The product at 6 whose left operand is the sum node at 3 itself, with
    no node for parentheses in between; [1 * 2 + 3] has this shape with
    the two operators exchanged *)
Definition nested : Heap :=
  [ num "1"; MkToken PlusToken; num "2"; MkBinaryExpression 0 1 2;
    MkToken AsteriskToken; num "3"; MkBinaryExpression 3 4 5 ].

(** [let y = Math.sin(x);], the call at 4 *)
Definition sine : Heap :=
  [ ident "y"; ident "Math"; ident "sin"; MkPropertyAccessExpression 1 2;
    ident "x"; MkCallExpression 3 [4];
    MkVariableDeclaration 0 (Some 5); MkVariableDeclarationList [6];
    MkVariableStatement 7; MkToken EndOfFileToken; MkSourceFile [8] 9 ].

(** [Math.log(x)] at 4 *)
Definition logarithm : Heap :=
  [ ident "Math"; ident "log"; MkPropertyAccessExpression 0 1;
    ident "x"; MkCallExpression 2 [3] ].

(** [Math.toString()] at 3 *)
Definition inherited : Heap :=
  [ ident "Math"; ident "toString"; MkPropertyAccessExpression 0 1;
    MkCallExpression 2 [] ].

(** [1 + 2;] the sum at 3, its statement at 4, the file at 6 *)
Definition statement : Heap :=
  [ num "1"; MkToken PlusToken; num "2"; MkBinaryExpression 0 1 2;
    MkExpressionStatement 3; MkToken EndOfFileToken; MkSourceFile [4] 5 ].

(** [Math.sin(1 + 2);] the call at 7, its statement at 8, the file at 10 *)
Definition sineStatement : Heap :=
  [ ident "Math"; ident "sin"; MkPropertyAccessExpression 0 1;
    num "1"; MkToken PlusToken; num "2"; MkBinaryExpression 3 4 5;
    MkCallExpression 2 [6]; MkExpressionStatement 7;
    MkToken EndOfFileToken; MkSourceFile [8] 9 ].

(** [f(1 + 2, 3 * 4);] the call at 9, the file at 12 *)
Definition twoArguments : Heap :=
  [ ident "f"; num "1"; MkToken PlusToken; num "2"; MkBinaryExpression 1 2 3;
    num "3"; MkToken AsteriskToken; num "4"; MkBinaryExpression 5 6 7;
    MkCallExpression 0 [4; 8]; MkExpressionStatement 9;
    MkToken EndOfFileToken; MkSourceFile [10] 11 ].

(** [let x = 1 + 2;] the sum at 4, the declaration at 5, the file at 9 *)
Definition declaration : Heap :=
  [ ident "x"; num "1"; MkToken PlusToken; num "2"; MkBinaryExpression 1 2 3;
    MkVariableDeclaration 0 (Some 4); MkVariableDeclarationList [5];
    MkVariableStatement 6; MkToken EndOfFileToken; MkSourceFile [7] 8 ].

(** [import { Decimal } from 'decimal.js'; import * as D from 'decimal.js';]
    the file at 12 *)
Definition namedImport : Heap :=
  [ ident "Decimal"; MkImportSpecifier None 0; MkNamedImports [1];
    MkImportClause None (Some 2); MkStringLiteral "decimal.js";
    MkImportDeclaration (Some 3) 4;
    ident "D"; MkNamespaceImport 6; MkImportClause None (Some 7);
    MkStringLiteral "decimal.js"; MkImportDeclaration (Some 8) 9;
    MkToken EndOfFileToken; MkSourceFile [5; 10] 11 ].

(** [import Decimal from 'decimal.js';] twice, the file at 9 *)
Definition importedTwice : Heap :=
  [ ident "Decimal"; MkImportClause (Some 0) None; MkStringLiteral "decimal.js";
    MkImportDeclaration (Some 1) 2;
    ident "Decimal"; MkImportClause (Some 4) None; MkStringLiteral "decimal.js";
    MkImportDeclaration (Some 5) 6;
    MkToken EndOfFileToken; MkSourceFile [3; 7] 8 ].

(** [import Decimal from 'decimal.js'; let x = 1;] the file at 10 *)
Definition importedOnce : Heap :=
  [ ident "Decimal"; MkImportClause (Some 0) None; MkStringLiteral "decimal.js";
    MkImportDeclaration (Some 1) 2;
    ident "x"; num "1"; MkVariableDeclaration 4 (Some 5);
    MkVariableDeclarationList [6]; MkVariableStatement 7;
    MkToken EndOfFileToken; MkSourceFile [3; 8] 9 ].

End Samples.

(** ** Vocabulary of the statements *)

(** The operators with a rule, as the [switch] lists them. *)
Definition arithmetic : list (SyntaxKind * string) :=
  [ (SlashToken, "div"); (AsteriskToken, "times");
    (PlusToken, "plus"); (MinusToken, "minus") ].

(** The five nodes of [new Decimal(left).operator(right)], allocated from
    [base] on. *)
Definition decimalCallNodes (base : nat) (left : ref) (operator : string)
    (right : ref) : list Node :=
  [ MkIdentifier (JsString "Decimal");
    MkNewExpression base (Some [left]);
    MkIdentifier (JsString operator);
    MkPropertyAccessExpression (base + 1) (base + 2);
    MkCallExpression (base + 3) [right] ].

(** The four nodes of [Decimal.method(args)], allocated from [base] on. *)
Definition staticCallNodes (base : nat) (method : JsValue) (args : list ref) : list Node :=
  [ MkIdentifier (JsString "Decimal");
    MkIdentifier method;
    MkPropertyAccessExpression base (base + 1);
    MkCallExpression (base + 2) args ].

(** Computations that only allocate: the store they leave is the store
    they found, followed by new nodes. *)
Definition extends {A} (m : M A) : Prop :=
  forall h a h', m h = Returns a h' -> exists ext, h' = h ++ ext.

(** Every reference held by a node of the store is in the store. *)
Definition closed (h : Heap) : Prop :=
  Forall (fun n => Forall (fun c => c < List.length h) (concat (fields n))) h.

(** A default import of the name [Decimal] from the module
    ['decimal.js']: [import Decimal from 'decimal.js']. *)
Definition DefaultDecimalImport (h : Heap) (stmt : ref) : Prop :=
  exists clause specifier name bindings,
    h !! stmt = Some (MkImportDeclaration (Some clause) specifier)
    /\ h !! specifier = Some (MkStringLiteral "decimal.js")
    /\ h !! clause = Some (MkImportClause (Some name) bindings)
    /\ h !! name = Some (MkIdentifier (JsString "Decimal")).

(** The test of the callback as a boolean. *)
Definition isDecimalImport (h : Heap) (stmt : ref) : bool :=
  match declaresDecimalJS stmt h with
  | Returns true _ => true
  | _ => false
  end.

(** Whether a statement is such an import can be decided by reading the
    four nodes. *)
#[global] Instance DefaultDecimalImport_dec (h : Heap) (stmt : ref) :
  Decision (DefaultDecimalImport h stmt).
Proof.
  unfold DefaultDecimalImport.
  destruct (h !! stmt) as [n|] eqn:Hstmt;
    [|right; intros (? & ? & ? & ? & ? & _); simplify_eq].
  destruct n as [| | | | | | | | | | | | | |importClause moduleSpecifier| | | | |];
    try solve [right; intros (? & ? & ? & ? & ? & _); simplify_eq].
  destruct importClause as [clause|];
    [|right; intros (? & ? & ? & ? & ? & _); simplify_eq].
  destruct (h !! moduleSpecifier) as [ms|] eqn:Hspecifier;
    [|right; intros (? & ? & ? & ? & ? & ? & _); simplify_eq].
  destruct ms as [|?|text| | | | | | | | | | | | | | | | |];
    try solve [right; intros (? & ? & ? & ? & ? & ? & _); simplify_eq].
  destruct (decide (text = "decimal.js")) as [->|Htext];
    [|right; intros (? & ? & ? & ? & ? & ? & _); simplify_eq].
  destruct (h !! clause) as [c|] eqn:Hclause;
    [|right; intros (? & ? & ? & ? & ? & ? & ? & _); simplify_eq].
  destruct c as [| | | | | | | | | | | | | | |name bindings| | | |];
    try solve [right; intros (? & ? & ? & ? & ? & ? & ? & _); simplify_eq].
  destruct name as [name|];
    [|right; intros (? & ? & ? & ? & ? & ? & ? & _); simplify_eq].
  destruct (h !! name) as [i|] eqn:Hname;
    [|right; intros (? & ? & ? & ? & ? & ? & ? & ?); simplify_eq].
  destruct i as [| | |escapedText| | | | | | | | | | | | | | | |];
    try solve [right; intros (? & ? & ? & ? & ? & ? & ? & ?); simplify_eq].
  destruct (decide (escapedText = JsString "Decimal")) as [->|Hdecimal];
    [|right; intros (? & ? & ? & ? & ? & ? & ? & ?); simplify_eq].
  left. exists clause, moduleSpecifier, name, bindings. by rewrite Hclause, Hname.
Defined.

(** The number of statements that are default imports of [Decimal] from
    ['decimal.js']. *)
Definition countDecimalImports (h : Heap) (statements : list ref) : nat :=
  List.length (filter (DefaultDecimalImport h) statements).

(** An import declaration that binds the local name [Decimal] to something
    of the module ['decimal.js']: as the default import, as the namespace
    import, or as one of the named imports. *)
Definition BindsDecimal (h : Heap) (stmt : ref) : Prop :=
  exists clause specifier name bindings,
    h !! stmt = Some (MkImportDeclaration (Some clause) specifier)
    /\ h !! specifier = Some (MkStringLiteral "decimal.js")
    /\ h !! clause = Some (MkImportClause name bindings)
    /\ ((exists n,
           name = Some n
           /\ h !! n = Some (MkIdentifier (JsString "Decimal")))
        \/ (exists b n,
              bindings = Some b
              /\ h !! b = Some (MkNamespaceImport n)
              /\ h !! n = Some (MkIdentifier (JsString "Decimal")))
        \/ (exists b elements element propertyName n,
              bindings = Some b
              /\ h !! b = Some (MkNamedImports elements)
              /\ element ∈ elements
              /\ h !! element = Some (MkImportSpecifier propertyName n)
              /\ h !! n = Some (MkIdentifier (JsString "Decimal")))).

(** Computations that only read: stuck, or the same answer in the same
    store, also after allocations. *)
Definition reads {A} (m : M A) : Prop :=
  forall h, m h = Stuck \/ exists a, forall ext, m (h ++ ext) = Returns a (h ++ ext).

(** The test has an answer on [s], now and after allocations. *)
Definition answers (h : Heap) (s : ref) : Prop :=
  exists b, forall ext, declaresDecimalJS s (h ++ ext) = Returns b (h ++ ext).

(** The four nodes of [import Decimal from 'decimal.js'], allocated from
    [base] on; the declaration is the last. *)
Definition importNodes (base : nat) : list Node :=
  [ MkIdentifier (JsString "Decimal");
    MkImportClause (Some base) None;
    MkStringLiteral "decimal.js";
    MkImportDeclaration (Some (base + 1)) (base + 2) ].

(** What an assignment of the walker can make of a node: the node
    itself, the same declaration with another initializer, or the same
    call with other arguments. *)
Definition sameButSlot (n n' : Node) : Prop :=
  n' = n
  \/ (exists name i i',
        n = MkVariableDeclaration name i /\ n' = MkVariableDeclaration name i')
  \/ (exists callee a a',
        n = MkCallExpression callee a /\ n' = MkCallExpression callee a').

(** Every node of [h] is still there in [h'], changed in those slots at
    most. *)
Definition frame (h h' : Heap) : Prop :=
  forall r n, h !! r = Some n -> exists n', h' !! r = Some n' /\ sameButSlot n n'.

(** A subtree of depth at most [depth] without binary expressions and
    without calls. *)
Fixpoint plain (depth : nat) (h : Heap) (r : ref) {struct depth} : Prop :=
  match depth with
  | O => False
  | S depth' =>
      exists n,
        h !! r = Some n
        /\ kind n <> BinaryExpression
        /\ kind n <> CallExpression
        /\ Forall (plain depth' h) (concat (fields n))
  end.

(** The subtree at [r] is in the store and has depth at most [depth]; none
    of its nodes is a bare token carrying the kind of a binary expression
    or of a call. *)
Fixpoint within (depth : nat) (h : Heap) (r : ref) {struct depth} : Prop :=
  match depth with
  | O => False
  | S depth' =>
      exists n,
        h !! r = Some n
        /\ n <> MkToken BinaryExpression
        /\ n <> MkToken CallExpression
        /\ Forall (within depth' h) (concat (fields n))
  end.

(** The store after the rewrite [e] was offered to the parent [pn] at
    [p]: a declaration takes it as initializer, a call as its only
    argument, another parent not at all. *)
Definition attached (p : ref) (pn : Node) (e : ref) (h : Heap) : Heap :=
  match pn with
  | MkVariableDeclaration name _ => <[p := MkVariableDeclaration name (Some e)]> h
  | MkCallExpression callee _ => <[p := MkCallExpression callee [e]]> h
  | _ => h
  end.

(** More programs. *)
Module Programs.

(** [let y = x + 1;] the sum at 4, the declaration at 5, the file at 9 *)
Definition identifierOperand : Heap :=
  [ Samples.ident "y"; Samples.ident "x"; MkToken PlusToken; Samples.num "1";
    MkBinaryExpression 1 2 3;
    MkVariableDeclaration 0 (Some 4); MkVariableDeclarationList [5];
    MkVariableStatement 6; MkToken EndOfFileToken; MkSourceFile [7] 8 ].

(** [let x = 1 < 2;] the comparison at 4, the declaration at 5 *)
Definition comparisonInitializer : Heap :=
  [ Samples.ident "x"; Samples.num "1"; MkToken LessThanToken; Samples.num "2";
    MkBinaryExpression 1 2 3;
    MkVariableDeclaration 0 (Some 4); MkVariableDeclarationList [5];
    MkVariableStatement 6; MkToken EndOfFileToken; MkSourceFile [7] 8 ].

(** [1 + f(2)] at 5, the call at 4 *)
Definition callOperand : Heap :=
  [ Samples.num "1"; MkToken PlusToken; Samples.ident "f"; Samples.num "2";
    MkCallExpression 2 [3]; MkBinaryExpression 0 1 4 ].

End Programs.

(** * Properties *)

(** ** Stepping through a computation *)

Lemma bind_deref {A} (r : ref) (n : Node) (k : Node -> M A) (h : Heap) :
  h !! r = Some n -> bind (deref r) k h = k n h.
Proof. intros H. unfold bind, deref. by rewrite H. Qed.

Lemma bind_ret {A B} (a : A) (k : A -> M B) (h : Heap) :
  bind (ret a) k h = k a h.
Proof. reflexivity. Qed.

Lemma bind_returns {A B} (m : M A) (k : A -> M B) (h h' : Heap) (a : A) :
  m h = Returns a h' -> bind m k h = k a h'.
Proof. intros H. unfold bind. by rewrite H. Qed.

Lemma bind_alloc {A} (n : Node) (k : ref -> M A) (h : Heap) :
  bind (alloc n) k h = k (List.length h) (h ++ [n]).
Proof. reflexivity. Qed.

Lemma bind_inv {A B} (m : M A) (k : A -> M B) (h h' : Heap) (b : B) :
  bind m k h = Returns b h' ->
  exists a h1, m h = Returns a h1 /\ k a h1 = Returns b h'.
Proof.
  unfold bind. destruct (m h) as [a h1| | |]; try discriminate. eauto.
Qed.

Lemma operatorMethod_Some (k : SyntaxKind) (method : string) :
  operatorMethod k = Some method <-> (k, method) ∈ arithmetic.
Proof.
  unfold arithmetic. split.
  - destruct k; simpl; intros [= <-]; set_solver.
  - rewrite !elem_of_cons, elem_of_nil.
    intros [[= -> ->]|[[= -> ->]|[[= -> ->]|[[= -> ->]|[]]]]]; reflexivity.
Qed.

Lemma operatorMethod_None (k : SyntaxKind) :
  operatorMethod k = None <-> k ∉ [SlashToken; AsteriskToken; PlusToken; MinusToken].
Proof.
  split.
  - intros H Hin. rewrite !elem_of_cons, elem_of_nil in Hin.
    destruct Hin as [->|[->|[->|[->|[]]]]]; discriminate.
  - intros H. destruct k; try reflexivity; exfalso; apply H; set_solver.
Qed.

(** ** The strict classifier on literals *)

Lemma ensureFixedPoint_literal (fuel : nat) (h : Heap) (n : ref) (text : string) :
  h !! n = Some (MkNumericLiteral text) ->
  ensureFixedPoint (S fuel) n h = Returns n h.
Proof. intros Hn. simpl. rewrite (bind_deref _ _ _ _ Hn). reflexivity. Qed.

Lemma ensureFixedPoint_binary (fuel : nat) (h : Heap) (node l op r : ref) :
  h !! node = Some (MkBinaryExpression l op r) ->
  ensureFixedPoint (S fuel) node h = rewriteBinaryExpression fuel node h.
Proof. intros Hn. simpl. rewrite (bind_deref _ _ _ _ Hn). reflexivity. Qed.

Lemma ensureFixedPoint_call (fuel : nat) (h : Heap) (node e : ref) (args : list ref) :
  h !! node = Some (MkCallExpression e args) ->
  ensureFixedPoint (S fuel) node h = rewriteCallExpression node h.
Proof. intros Hn. simpl. rewrite (bind_deref _ _ _ _ Hn). reflexivity. Qed.

(** C3.  [ensureFixedPoint] on a numeric literal returns the reference it
    was given and leaves the store as it was: no node is allocated.
    Classifying the result again therefore gives the same reference. *)
Theorem ensureFixedPoint_numeric_literal
    (fuel : nat) (h : Heap) (n : ref) (text : string) :
  h !! n = Some (MkNumericLiteral text) ->
  ensureFixedPoint (S fuel) n h = Returns n h
  /\ bind (ensureFixedPoint (S fuel) n) (ensureFixedPoint (S fuel)) h = Returns n h.
Proof.
  intros Hn.
  pose proof (ensureFixedPoint_literal fuel h n text Hn) as Hstep.
  split; [exact Hstep|].
  rewrite (bind_returns _ _ _ _ _ Hstep). exact Hstep.
Qed.

Lemma ensureFixedPoint_numeric_literal_witness :
  Samples.division !! 0 = Some (MkNumericLiteral "7") /\
  ensureFixedPoint 1 0 Samples.division = Returns 0 Samples.division.
Proof.
  split; [reflexivity|].
  apply (ensureFixedPoint_numeric_literal 0 Samples.division 0 "7").
  reflexivity.
Defined.

(** ** Operators without a rule *)

(** C5.  On a binary expression whose operator is none of [/ * + -],
    [rewriteBinaryExpression] returns the reference it was given and leaves
    the store as it was.  The operands are not classified: the result is
    this one whatever the classifier would do on them, and a recursion
    budget of zero is enough. *)
Theorem rewriteBinaryExpression_other_operator
    (classify : ref -> M ref) (h : Heap) (node l op r : ref) (tok : Node) :
  h !! node = Some (MkBinaryExpression l op r) ->
  h !! op = Some tok ->
  kind tok ∉ [SlashToken; AsteriskToken; PlusToken; MinusToken] ->
  rewriteBinaryExpressionWith classify node h = Returns node h
  /\ rewriteBinaryExpression 0 node h = Returns node h.
Proof.
  intros Hnode Hop Hkind. apply operatorMethod_None in Hkind.
  assert (Hany : forall c, rewriteBinaryExpressionWith c node h = Returns node h).
  { intros c. unfold rewriteBinaryExpressionWith.
    rewrite (bind_deref _ _ _ _ Hnode), (bind_deref _ _ _ _ Hop), Hkind.
    reflexivity. }
  split; [apply Hany|apply Hany].
Qed.

Lemma rewriteBinaryExpression_other_operator_witness :
  rewriteBinaryExpressionWith (fun _ => throw (UnsupportedNodeKind Identifier))
    3 Samples.unsupported = Returns 3 Samples.unsupported
  /\ rewriteBinaryExpression 0 3 Samples.unsupported = Returns 3 Samples.unsupported.
Proof.
  apply (rewriteBinaryExpression_other_operator _ Samples.unsupported 3 0 1 2
           (MkToken LessThanToken)); [reflexivity|reflexivity|].
  simpl. rewrite !elem_of_cons, elem_of_nil.
  intros [H|[H|[H|[H|[]]]]]; discriminate H.
Defined.

(** The older copy in [part_000] answers [undefined] at the same place,
    also without touching the operands. *)
Lemma Big_rewriteBinaryExpression_other_operator
    (classify : ref -> M (option ref)) (h : Heap) (node l op r : ref) (tok : Node) :
  h !! node = Some (MkBinaryExpression l op r) ->
  h !! op = Some tok ->
  kind tok ∉ [SlashToken; AsteriskToken; PlusToken; MinusToken] ->
  Big.rewriteBinaryExpressionWith classify node h = Returns None h.
Proof.
  intros Hnode Hop Hkind. apply operatorMethod_None in Hkind.
  unfold Big.rewriteBinaryExpressionWith.
  rewrite (bind_deref _ _ _ _ Hnode), (bind_deref _ _ _ _ Hop), Hkind.
  reflexivity.
Qed.

(** ** Strict classification against the walker's rule *)

Lemma applyRule_no_rule (fuel : nat) (h : Heap) (node : ref) (n : Node) :
  h !! node = Some n ->
  kind n <> BinaryExpression -> kind n <> CallExpression ->
  applyRule fuel node h = Returns None h.
Proof.
  intros Hn Hb Hc. unfold applyRule. rewrite (bind_deref _ _ _ _ Hn).
  destruct (kind n); try reflexivity; congruence.
Qed.

Lemma attach_same (node p : ref) (h : Heap) :
  attach node p (Some node) h = Returns tt h.
Proof.
  unfold attach. rewrite bool_decide_eq_false_2; [reflexivity|]. intros H. by apply H.
Qed.

Lemma decimalifyNode_parent (fuel : nat) (node p : ref) (e : option ref)
    (h h' h'' : Heap) :
  applyRule fuel node h = Returns e h' ->
  attach node p e h' = Returns tt h'' ->
  decimalifyNode fuel node (Some p) h = Returns (finalNode e node) h''.
Proof.
  intros Hrule Hattach. unfold decimalifyNode, bind.
  rewrite Hrule, Hattach. reflexivity.
Qed.

(** A comparison is a binary expression, and the strict classifier hands
    every binary expression to the binary rule, which lets it through:
    classifying [1 < 2] strictly returns the node and raises nothing. *)
Lemma ensureFixedPoint_comparison_returns :
  ensureFixedPoint 1 3 Samples.unsupported = Returns 3 Samples.unsupported
  /\ forall fuel k,
       ensureFixedPoint fuel 3 Samples.unsupported <> Throws (UnsupportedNodeKind k).
Proof.
  split; [reflexivity|].
  intros [|fuel] k; [discriminate|].
  simpl. unfold bind at 1. simpl.
  change (rewriteBinaryExpressionWith (ensureFixedPoint fuel) 3 Samples.unsupported
          <> Throws (UnsupportedNodeKind k)).
  unfold rewriteBinaryExpressionWith. simpl. discriminate.
Qed.

(** C1, as the code has it.  A node that is neither a numeric literal, a
    binary expression nor a call (a unary expression is one) makes
    [ensureFixedPoint] throw [UnsupportedNodeKind] with the kind of the
    node; a binary expression whose operator has no rule (a comparison is
    one) is returned by [ensureFixedPoint] as it is, without an error.
    For both, what the walker does at that node before it descends raises
    nothing, changes nothing in the store and keeps the node. *)
Theorem strict_classifier_and_walker_on_unsupported
    (fuel : nat) (h : Heap) (node p : ref) (n : Node) :
  h !! node = Some n ->
  (kind n <> NumericLiteral -> kind n <> BinaryExpression ->
   kind n <> CallExpression ->
     ensureFixedPoint (S fuel) node h = Throws (UnsupportedNodeKind (kind n))
     /\ decimalifyNode fuel node (Some p) h = Returns node h)
  /\ (forall l op r tok,
        n = MkBinaryExpression l op r -> h !! op = Some tok ->
        kind tok ∉ [SlashToken; AsteriskToken; PlusToken; MinusToken] ->
          ensureFixedPoint (S fuel) node h = Returns node h
          /\ decimalifyNode fuel node (Some p) h = Returns node h).
Proof.
  intros Hn. split.
  - intros Hlit Hbin Hcall. split.
    + simpl. rewrite (bind_deref _ _ _ _ Hn).
      rewrite bool_decide_eq_false_2 by congruence.
      rewrite bool_decide_eq_false_2 by congruence.
      rewrite bool_decide_eq_false_2 by congruence.
      reflexivity.
    + apply (decimalifyNode_parent fuel node p None h h h);
        [by apply (applyRule_no_rule fuel h node n)|reflexivity].
  - intros l op r tok -> Hop Hkind.
    assert (Hrule : forall c, rewriteBinaryExpressionWith c node h = Returns node h).
    { intros c. apply operatorMethod_None in Hkind.
      unfold rewriteBinaryExpressionWith.
      rewrite (bind_deref _ _ _ _ Hn), (bind_deref _ _ _ _ Hop), Hkind.
      reflexivity. }
    split.
    + simpl. rewrite (bind_deref _ _ _ _ Hn). simpl. apply Hrule.
    + assert (Happ : applyRule fuel node h = Returns (Some node) h).
      { unfold applyRule. rewrite (bind_deref _ _ _ _ Hn). simpl.
        unfold rewriteBinaryExpression.
        rewrite (bind_returns _ _ _ _ _ (Hrule _)). reflexivity. }
      apply (decimalifyNode_parent fuel node p (Some node) h h h);
        [exact Happ|apply attach_same].
Qed.

Lemma strict_classifier_and_walker_on_unsupported_witness :
  (ensureFixedPoint 1 5 Samples.unsupported
     = Throws (UnsupportedNodeKind PrefixUnaryExpression)
   /\ decimalifyNode 0 5 (Some 7) Samples.unsupported = Returns 5 Samples.unsupported)
  /\ (ensureFixedPoint 1 3 Samples.unsupported = Returns 3 Samples.unsupported
      /\ decimalifyNode 0 3 (Some 6) Samples.unsupported = Returns 3 Samples.unsupported).
Proof.
  split.
  - apply (proj1 (strict_classifier_and_walker_on_unsupported 0 Samples.unsupported
                    5 7 (MkPrefixUnaryExpression MinusToken 4) eq_refl));
      discriminate.
  - apply (proj2 (strict_classifier_and_walker_on_unsupported 0 Samples.unsupported
                    3 6 (MkBinaryExpression 0 1 2) eq_refl)
             0 1 2 (MkToken LessThanToken) eq_refl eq_refl).
    simpl. rewrite !elem_of_cons, elem_of_nil.
    intros [H|[H|[H|[H|[]]]]]; discriminate H.
Defined.

(** ** The arithmetic rule *)

Lemma createDecimalCall_returns (left : ref) (operator : string) (right : ref)
    (h : Heap) :
  createDecimalCall left operator right h
  = Returns (List.length h + 4)
      (h ++ decimalCallNodes (List.length h) left operator right).
Proof.
  unfold createDecimalCall, createIdentifier, createNew, createPropertyAccess,
    createCall.
  rewrite !bind_alloc. unfold alloc, decimalCallNodes.
  rewrite <- !app_assoc. simpl. rewrite !length_app. simpl.
  repeat f_equal; lia.
Qed.

Lemma rewriteBinaryExpressionWith_arithmetic (classify : ref -> M ref)
    (h : Heap) (node l op r : ref) (tok : Node) (method : string) :
  h !! node = Some (MkBinaryExpression l op r) ->
  h !! op = Some tok ->
  (kind tok, method) ∈ arithmetic ->
  rewriteBinaryExpressionWith classify node h
  = (do left <- classify l;
     do right <- classify r;
     createDecimalCall left method right) h.
Proof.
  intros Hnode Hop Hkind. apply operatorMethod_Some in Hkind.
  unfold rewriteBinaryExpressionWith.
  rewrite (bind_deref _ _ _ _ Hnode), (bind_deref _ _ _ _ Hop), Hkind.
  reflexivity.
Qed.

Lemma lookup_decimalCallNodes (h : Heap) (left right : ref) (operator : string) :
  let base := List.length h in
  let h' := h ++ decimalCallNodes base left operator right in
  h' !! base = Some (MkIdentifier (JsString "Decimal"))
  /\ h' !! (base + 1) = Some (MkNewExpression base (Some [left]))
  /\ h' !! (base + 2) = Some (MkIdentifier (JsString operator))
  /\ h' !! (base + 3) = Some (MkPropertyAccessExpression (base + 1) (base + 2))
  /\ h' !! (base + 4) = Some (MkCallExpression (base + 3) [right]).
Proof.
  intros base h'. subst h'. unfold decimalCallNodes.
  repeat split; rewrite lookup_app_r by lia.
  - replace (base - List.length h) with 0 by (subst base; lia). reflexivity.
  - replace (base + 1 - List.length h) with 1 by (subst base; lia). reflexivity.
  - replace (base + 2 - List.length h) with 2 by (subst base; lia). reflexivity.
  - replace (base + 3 - List.length h) with 3 by (subst base; lia). reflexivity.
  - replace (base + 4 - List.length h) with 4 by (subst base; lia). reflexivity.
Qed.

Lemma treeOf_node (f : nat) (h : Heap) (r : ref) (n : Node) :
  h !! r = Some n -> treeOf (S f) h r = treeOfNode (treeOf f h) n.
Proof. intros H. simpl. by rewrite H. Qed.

(** Reading [new Decimal(left).operator(right)] back: the operands are
    read with the budget left at their depth. *)
Lemma treeOf_decimalCall (f : nat) (h : Heap) (call access construct decimal
    method left right : ref) (operator : string) (tl tr : Tree) :
  h !! call = Some (MkCallExpression access [right]) ->
  h !! access = Some (MkPropertyAccessExpression construct method) ->
  h !! construct = Some (MkNewExpression decimal (Some [left])) ->
  h !! decimal = Some (MkIdentifier (JsString "Decimal")) ->
  h !! method = Some (MkIdentifier (JsString operator)) ->
  treeOf (S f) h left = Some tl ->
  treeOf (S (S (S f))) h right = Some tr ->
  treeOf (S (S (S (S f)))) h call = Some (decimalCall tl operator tr).
Proof.
  intros Hcall Haccess Hconstruct Hdecimal Hmethod Hl Hr.
  rewrite (treeOf_node _ _ _ _ Hcall). cbn [treeOfNode].
  rewrite (treeOf_node _ _ _ _ Haccess). cbn [treeOfNode].
  rewrite (treeOf_node _ _ _ _ Hconstruct). cbn [treeOfNode].
  rewrite (treeOf_node _ _ _ _ Hdecimal). cbn [treeOfNode].
  rewrite (treeOf_node _ _ _ _ Hmethod). cbn [treeOfNode].
  cbn [optM mapM mbind option_bind fmap option_fmap option_map mret option_ret].
  rewrite Hl, Hr. reflexivity.
Qed.

Lemma rewriteBinaryExpressionWith_returns (classify : ref -> M ref)
    (h h1 h2 : Heap) (node l op r l' r' : ref) (tok : Node) (method : string) :
  h !! node = Some (MkBinaryExpression l op r) ->
  h !! op = Some tok ->
  (kind tok, method) ∈ arithmetic ->
  classify l h = Returns l' h1 ->
  classify r h1 = Returns r' h2 ->
  rewriteBinaryExpressionWith classify node h
  = Returns (List.length h2 + 4)
      (h2 ++ decimalCallNodes (List.length h2) l' method r').
Proof.
  intros Hnode Hop Hkind Hl Hr.
  rewrite (rewriteBinaryExpressionWith_arithmetic _ _ _ _ _ _ _ _ Hnode Hop Hkind).
  rewrite (bind_returns _ _ _ _ _ Hl), (bind_returns _ _ _ _ _ Hr).
  apply createDecimalCall_returns.
Qed.

(** What leaves the classification of an operand leaves the rule. *)
Lemma rewriteBinaryExpressionWith_left_throws (classify : ref -> M ref)
    (h : Heap) (node l op r : ref) (tok : Node) (method : string) (e : JsError) :
  h !! node = Some (MkBinaryExpression l op r) ->
  h !! op = Some tok ->
  (kind tok, method) ∈ arithmetic ->
  classify l h = Throws e ->
  rewriteBinaryExpressionWith classify node h = Throws e.
Proof.
  intros Hnode Hop Hkind Hl.
  rewrite (rewriteBinaryExpressionWith_arithmetic _ _ _ _ _ _ _ _ Hnode Hop Hkind).
  unfold bind. by rewrite Hl.
Qed.

(** C2.  On a binary expression whose operator is one of [/ * + -] and
    whose operands are numeric literals [a] and [b],
    [rewriteBinaryExpression] returns a new call that reads
    [new Decimal(a).method(b)], with [div] for [/], [times] for [*], [plus]
    for [+] and [minus] for [-]; the operands are the literal nodes
    themselves.  The rule classifies the left operand, then the right one,
    with [ensureFixedPoint], and builds the replacement from the two
    results. *)
Theorem rewriteBinaryExpression_literals
    (fuel : nat) (h : Heap) (node l op r : ref) (tok : Node)
    (method a b : string) :
  h !! node = Some (MkBinaryExpression l op r) ->
  h !! op = Some tok ->
  (kind tok, method) ∈
    [ (SlashToken, "div"); (AsteriskToken, "times");
      (PlusToken, "plus"); (MinusToken, "minus") ] ->
  h !! l = Some (MkNumericLiteral a) ->
  h !! r = Some (MkNumericLiteral b) ->
  let base := List.length h in
  let h' := h ++ [ MkIdentifier (JsString "Decimal");
                   MkNewExpression base (Some [l]);
                   MkIdentifier (JsString method);
                   MkPropertyAccessExpression (base + 1) (base + 2);
                   MkCallExpression (base + 3) [r] ] in
  rewriteBinaryExpression (S fuel) node h = Returns (base + 4) h'
  /\ treeOf 4 h' (base + 4)
     = Some (decimalCall (TNumericLiteral a) method (TNumericLiteral b))
  /\ rewriteBinaryExpression (S fuel) node h
     = (do left <- ensureFixedPoint (S fuel) l;
        do right <- ensureFixedPoint (S fuel) r;
        createDecimalCall left method right) h.
Proof.
  intros Hnode Hop Hkind Hl Hr base h'.
  split; [|split].
  - apply (rewriteBinaryExpressionWith_returns _ h h h node l op r l r tok method);
      try assumption; by eapply ensureFixedPoint_literal.
  - pose proof (lookup_decimalCallNodes h l r method) as Hnew.
    cbv zeta in Hnew.
    destruct Hnew as (Hdecimal & Hconstruct & Hmethod & Haccess & Hcall).
    subst h' base.
    change (treeOf 4 (h ++ decimalCallNodes (List.length h) l method r)
              (List.length h + 4)
            = Some (decimalCall (TNumericLiteral a) method (TNumericLiteral b))).
    apply (treeOf_decimalCall 0 _ _ _ _ _ _ l r method
             _ _ Hcall Haccess Hconstruct Hdecimal Hmethod).
    + rewrite (treeOf_node _ _ _ _ (lookup_app_l_Some _ _ _ _ Hl)). reflexivity.
    + rewrite (treeOf_node _ _ _ _ (lookup_app_l_Some _ _ _ _ Hr)). reflexivity.
  - by apply (rewriteBinaryExpressionWith_arithmetic _ h node l op r tok method).
Qed.

Lemma rewriteBinaryExpression_literals_witness :
  rewriteBinaryExpression 1 3 Samples.division
  = Returns 8
      (Samples.division ++
         [ MkIdentifier (JsString "Decimal"); MkNewExpression 4 (Some [0]);
           MkIdentifier (JsString "div"); MkPropertyAccessExpression 5 6;
           MkCallExpression 7 [2] ])
  /\ treeOf 4
       (Samples.division ++
          [ MkIdentifier (JsString "Decimal"); MkNewExpression 4 (Some [0]);
            MkIdentifier (JsString "div"); MkPropertyAccessExpression 5 6;
            MkCallExpression 7 [2] ]) 8
     = Some (decimalCall (TNumericLiteral "7") "div" (TNumericLiteral "2")).
Proof.
  pose proof (rewriteBinaryExpression_literals 0 Samples.division 3 0 1 2
                (MkToken SlashToken) "div" "7" "2"
                eq_refl eq_refl) as H.
  simpl in H.
  destruct H as (H1 & H2 & _); [set_solver|reflexivity|reflexivity|].
  split; [exact H1|exact H2].
Defined.

(** ** Nested arithmetic *)

(** The parser keeps the parentheses of [(1 + 2) * 3] as a node of kind
    [ParenthesizedExpression] between the product and the sum.  The strict
    classifier has no case for it: classifying the product throws, whatever
    the budget, and no wrapped expression is produced. *)
Lemma ensureFixedPoint_parenthesized_operand_throws :
  ensureFixedPoint 2 7 Samples.parenthesized
  = Throws (UnsupportedNodeKind ParenthesizedExpression)
  /\ forall fuel r h',
       ensureFixedPoint fuel 7 Samples.parenthesized <> Returns r h'.
Proof.
  split; [reflexivity|].
  intros [|[|fuel]] r h'; discriminate.
Qed.

(** C8, as the code has it.  When the left operand of the product is the
    sum node itself, strict classification wraps twice: the result reads
    [new Decimal(new Decimal(1).plus(2)).times(3)], the sum being rewritten
    first and its call becoming the argument of the outer constructor.
    When the left operand is the parenthesized node the parser builds for
    [(1 + 2)], classification throws [UnsupportedNodeKind] with that
    kind. *)
Theorem ensureFixedPoint_nested_arithmetic
    (fuel : nat) (h : Heap) (node left op2 c : ref) (tok2 : Node)
    (m2 tc : string) :
  h !! node = Some (MkBinaryExpression left op2 c) ->
  h !! op2 = Some tok2 ->
  (kind tok2, m2) ∈ arithmetic ->
  h !! c = Some (MkNumericLiteral tc) ->
  (forall a op1 b tok1 m1 ta tb,
     h !! left = Some (MkBinaryExpression a op1 b) ->
     h !! op1 = Some tok1 ->
     (kind tok1, m1) ∈ arithmetic ->
     h !! a = Some (MkNumericLiteral ta) ->
     h !! b = Some (MkNumericLiteral tb) ->
     let base := List.length h in
     let h' := h ++ decimalCallNodes base a m1 b
                 ++ decimalCallNodes (base + 5) (base + 4) m2 c in
     ensureFixedPoint (S (S (S fuel))) node h = Returns (base + 9) h'
     /\ treeOf 7 h' (base + 9)
        = Some (decimalCall
                  (decimalCall (TNumericLiteral ta) m1 (TNumericLiteral tb))
                  m2 (TNumericLiteral tc)))
  /\ (forall inner,
        h !! left = Some (MkParenthesizedExpression inner) ->
        ensureFixedPoint (S (S fuel)) node h
        = Throws (UnsupportedNodeKind ParenthesizedExpression)).
Proof.
  intros Hnode Hop2 Hkind2 Hc. split.
  - intros a op1 b tok1 m1 ta tb Hleft Hop1 Hkind1 Ha Hb base h'.
    set (h1 := h ++ decimalCallNodes base a m1 b).
    assert (Hinner : ensureFixedPoint (S (S fuel)) left h = Returns (base + 4) h1).
    { rewrite (ensureFixedPoint_binary _ _ _ _ _ _ Hleft).
      apply (rewriteBinaryExpressionWith_returns _ h h h left a op1 b a b tok1 m1);
        try assumption; by eapply ensureFixedPoint_literal. }
    assert (Hc1 : h1 !! c = Some (MkNumericLiteral tc))
      by (by apply lookup_app_l_Some).
    assert (Hlen : List.length h1 = base + 5)
      by (subst h1 base; rewrite length_app; reflexivity).
    assert (Hh' : h' = h1 ++ decimalCallNodes (List.length h1) (base + 4) m2 c)
      by (subst h' h1; rewrite Hlen; apply app_assoc).
    split.
    + rewrite (ensureFixedPoint_binary _ _ _ _ _ _ Hnode).
      unfold rewriteBinaryExpression.
      rewrite (rewriteBinaryExpressionWith_returns _ h h1 h1 node left op2 c
                 (base + 4) c tok2 m2 Hnode Hop2 Hkind2 Hinner
                 (ensureFixedPoint_literal _ _ _ _ Hc1)).
      rewrite Hh', Hlen. f_equal. lia.
    + pose proof (lookup_decimalCallNodes h a b m1) as Hin.
      pose proof (lookup_decimalCallNodes h1 (base + 4) c m2) as Hout.
      cbv zeta in Hin, Hout. fold base in Hin. fold h1 in Hin.
      rewrite <- Hh', Hlen in Hout.
      destruct Hin as (Hd1 & Hn1 & Hm1 & Ha1 & Hc1').
      destruct Hout as (Hd2 & Hn2 & Hm2 & Ha2 & Hc2').
      assert (Hext : forall i n, h1 !! i = Some n -> h' !! i = Some n).
      { intros i n Hi. rewrite Hh'. by apply lookup_app_l_Some. }
      replace (base + 9) with (base + 5 + 4) by lia.
      apply (treeOf_decimalCall 3 h' _ _ _ _ _ (base + 4) c m2
               _ _ Hc2' Ha2 Hn2 Hd2 Hm2).
      * apply (treeOf_decimalCall 0 h' _ _ _ _ _ a b m1
                 _ _ (Hext _ _ Hc1') (Hext _ _ Ha1) (Hext _ _ Hn1)
                 (Hext _ _ Hd1) (Hext _ _ Hm1)).
        -- rewrite (treeOf_node _ _ _ _ (Hext _ _ (lookup_app_l_Some _ _ _ _ Ha))).
           reflexivity.
        -- rewrite (treeOf_node _ _ _ _ (Hext _ _ (lookup_app_l_Some _ _ _ _ Hb))).
           reflexivity.
      * rewrite (treeOf_node _ _ _ _ (Hext _ _ Hc1)). reflexivity.
  - intros inner Hleft.
    rewrite (ensureFixedPoint_binary _ _ _ _ _ _ Hnode).
    apply (rewriteBinaryExpressionWith_left_throws _ h node left op2 c tok2 m2);
      try assumption.
    simpl. rewrite (bind_deref _ _ _ _ Hleft). reflexivity.
Qed.

Lemma ensureFixedPoint_nested_arithmetic_witness :
  (ensureFixedPoint 3 6 Samples.nested
   = Returns 16
       (Samples.nested ++ decimalCallNodes 7 0 "plus" 2
          ++ decimalCallNodes 12 11 "times" 5)
   /\ treeOf 7
        (Samples.nested ++ decimalCallNodes 7 0 "plus" 2
           ++ decimalCallNodes 12 11 "times" 5) 16
      = Some (decimalCall
                (decimalCall (TNumericLiteral "1") "plus" (TNumericLiteral "2"))
                "times" (TNumericLiteral "3")))
  /\ ensureFixedPoint 2 7 Samples.parenthesized
     = Throws (UnsupportedNodeKind ParenthesizedExpression).
Proof.
  split.
  - apply (proj1 (ensureFixedPoint_nested_arithmetic 0 Samples.nested 6 3 4 5
                    (MkToken AsteriskToken) "times" "3"
                    eq_refl eq_refl ltac:(set_solver) eq_refl)
             0 1 2 (MkToken PlusToken) "plus" "1" "2"
             eq_refl eq_refl ltac:(set_solver) eq_refl eq_refl).
  - apply (proj2 (ensureFixedPoint_nested_arithmetic 0 Samples.parenthesized 7 4 5 6
                    (MkToken AsteriskToken) "times" "3"
                    eq_refl eq_refl ltac:(set_solver) eq_refl)
             3 eq_refl).
Defined.

(** ** The call rule *)

Lemma TRIG_FUNCTIONS_lookup (m : string) :
  TRIG_FUNCTIONS !! m = if bool_decide (m ∈ ["sin"; "cos"; "tan"]) then Some m else None.
Proof.
  unfold TRIG_FUNCTIONS.
  destruct (decide (m = "sin")) as [->|Hsin]; [reflexivity|].
  rewrite lookup_insert_ne by congruence.
  destruct (decide (m = "cos")) as [->|Hcos]; [reflexivity|].
  rewrite lookup_insert_ne by congruence.
  destruct (decide (m = "tan")) as [->|Htan]; [reflexivity|].
  rewrite lookup_insert_ne by congruence.
  rewrite lookup_empty, bool_decide_eq_false_2; [reflexivity|].
  rewrite !elem_of_cons, elem_of_nil. tauto.
Qed.

Lemma rewriteCallExpression_Math (h : Heap) (node callee ns nm : ref)
    (args : list ref) (name : Node) :
  h !! node = Some (MkCallExpression callee args) ->
  h !! callee = Some (MkPropertyAccessExpression ns nm) ->
  h !! ns = Some (MkIdentifier (JsString "Math")) ->
  h !! nm = Some name ->
  rewriteCallExpression node h
  = let decimalMethod := getProperty TRIG_FUNCTIONS (identifierText name) in
    if truthy decimalMethod
    then Returns (List.length h + 3)
           (h ++ staticCallNodes (List.length h) decimalMethod args)
    else Returns node h.
Proof.
  intros Hnode Hcallee Hns Hnm. unfold rewriteCallExpression.
  rewrite (bind_deref _ _ _ _ Hnode), (bind_deref _ _ _ _ Hcallee),
    (bind_deref _ _ _ _ Hns).
  simpl identifierText. rewrite bool_decide_eq_true_2 by reflexivity.
  rewrite (bind_deref _ _ _ _ Hnm). cbv zeta.
  destruct (truthy _); [|reflexivity].
  unfold createIdentifier, createPropertyAccess, createCall.
  rewrite !bind_alloc. unfold alloc, staticCallNodes.
  rewrite <- !app_assoc. simpl. rewrite !length_app. simpl.
  repeat f_equal; lia.
Qed.

(** A method of the table: a new call [Decimal.m(...)] whose argument list
    is the one of the original call, element for element the same
    references; nothing is classified. *)
Lemma rewriteCallExpression_trig (h : Heap) (node callee ns nm : ref)
    (args : list ref) (m : string) :
  h !! node = Some (MkCallExpression callee args) ->
  h !! callee = Some (MkPropertyAccessExpression ns nm) ->
  h !! ns = Some (MkIdentifier (JsString "Math")) ->
  h !! nm = Some (MkIdentifier (JsString m)) ->
  m ∈ ["sin"; "cos"; "tan"] ->
  rewriteCallExpression node h
  = Returns (List.length h + 3)
      (h ++ staticCallNodes (List.length h) (JsString m) args).
Proof.
  intros Hnode Hcallee Hns Hnm Hm.
  rewrite (rewriteCallExpression_Math _ _ _ _ _ _ _ Hnode Hcallee Hns Hnm).
  simpl identifierText. unfold getProperty. simpl toPropertyKey.
  rewrite TRIG_FUNCTIONS_lookup, bool_decide_eq_true_2 by assumption.
  cbv zeta.
  rewrite !elem_of_cons, elem_of_nil in Hm.
  destruct Hm as [->|[->|[->|[]]]]; reflexivity.
Qed.

(** A method that is neither in the table nor a member of
    [Object.prototype] ([log] is one): the node itself. *)
Lemma rewriteCallExpression_unlisted (h : Heap) (node callee ns nm : ref)
    (args : list ref) (m : string) :
  h !! node = Some (MkCallExpression callee args) ->
  h !! callee = Some (MkPropertyAccessExpression ns nm) ->
  h !! ns = Some (MkIdentifier (JsString "Math")) ->
  h !! nm = Some (MkIdentifier (JsString m)) ->
  m ∉ ["sin"; "cos"; "tan"] ->
  m ∉ ObjectPrototype ->
  rewriteCallExpression node h = Returns node h.
Proof.
  intros Hnode Hcallee Hns Hnm Hm Hproto.
  rewrite (rewriteCallExpression_Math _ _ _ _ _ _ _ Hnode Hcallee Hns Hnm).
  simpl identifierText. unfold getProperty. simpl toPropertyKey.
  rewrite TRIG_FUNCTIONS_lookup, bool_decide_eq_false_2 by assumption.
  rewrite bool_decide_eq_false_2 by assumption. reflexivity.
Qed.

(** A callee that is not [Math.something]: the node itself. *)
Lemma rewriteCallExpression_other_namespace (h : Heap) (node callee : ref)
    (args : list ref) (c : Node) :
  h !! node = Some (MkCallExpression callee args) ->
  h !! callee = Some c ->
  (forall ns nm e, c = MkPropertyAccessExpression ns nm -> h !! ns = Some e ->
     identifierText e <> JsString "Math") ->
  (forall ns nm, c = MkPropertyAccessExpression ns nm -> is_Some (h !! ns)) ->
  rewriteCallExpression node h = Returns node h.
Proof.
  intros Hnode Hcallee Hns Hdef. unfold rewriteCallExpression.
  rewrite (bind_deref _ _ _ _ Hnode), (bind_deref _ _ _ _ Hcallee).
  destruct c; try reflexivity.
  destruct (Hdef _ _ eq_refl) as [e He].
  rewrite (bind_deref _ _ _ _ He).
  rewrite bool_decide_eq_false_2; [reflexivity|]. by eapply Hns.
Qed.

Example rewriteCallExpression_sin :
  rewriteCallExpression 5 Samples.sine
  = Returns 14 (Samples.sine ++ staticCallNodes 11 (JsString "sin") [4])
  /\ treeOf 3 (Samples.sine ++ staticCallNodes 11 (JsString "sin") [4]) 14
     = Some (decimalStaticCall (JsString "sin") [TIdentifier (JsString "x")]).
Proof. split; reflexivity. Qed.

Example rewriteCallExpression_log :
  rewriteCallExpression 4 Samples.logarithm = Returns 4 Samples.logarithm.
Proof. reflexivity. Qed.

(** C4 at [Math.toString()].  [toString] is not in the table, but the table
    is an object literal and [TRIG_FUNCTIONS['toString']] is the function
    inherited from [Object.prototype], which is truthy.  The rule takes the
    rewriting branch: the result is a new call node, not the original
    one. *)
Theorem rewriteCallExpression_inherited_member :
  getProperty TRIG_FUNCTIONS (JsString "toString") = JsInherited "toString"
  /\ rewriteCallExpression 3 Samples.inherited
     = Returns 7
         (Samples.inherited ++ staticCallNodes 4 (JsInherited "toString") [])
  /\ rewriteCallExpression 3 Samples.inherited <> Returns 3 Samples.inherited.
Proof. split; [reflexivity|]. split; [reflexivity|discriminate]. Qed.

(** ** The rules only allocate

    A rule never assigns to an existing node: the store it leaves is the
    store it found, followed by the nodes it created. *)

Lemma extends_ret {A} (a : A) : extends (ret a).
Proof. intros h a' h' [= _ <-]. exists []. by rewrite app_nil_r. Qed.

Lemma extends_deref (r : ref) : extends (deref r).
Proof.
  intros h a h'. unfold deref. destruct (h !! r); [|discriminate].
  intros [= _ <-]. exists []. by rewrite app_nil_r.
Qed.

Lemma extends_alloc (n : Node) : extends (alloc n).
Proof. intros h a h' [= _ <-]. by exists [n]. Qed.

Lemma extends_fail {A} (m : M A) :
  (forall h a h', m h <> Returns a h') -> extends m.
Proof. intros H h a h' Hm. by apply H in Hm. Qed.

Lemma extends_bind {A B} (m : M A) (k : A -> M B) :
  extends m -> (forall a, extends (k a)) -> extends (bind m k).
Proof.
  intros Hm Hk h b h' Hbind.
  apply bind_inv in Hbind as (a & h1 & H1 & H2).
  apply Hm in H1 as [ext1 ->]. apply Hk in H2 as [ext2 ->].
  exists (ext1 ++ ext2). by rewrite app_assoc.
Qed.

Create HintDb extends.
#[local] Hint Resolve extends_ret extends_deref extends_alloc extends_bind : extends.

Lemma extends_createDecimalCall (l : ref) (operator : string) (r : ref) :
  extends (createDecimalCall l operator r).
Proof.
  intros h a h'. rewrite createDecimalCall_returns. intros [= _ <-]. eauto.
Qed.

Lemma extends_rewriteBinaryExpressionWith (classify : ref -> M ref) (node : ref) :
  (forall r, extends (classify r)) ->
  extends (rewriteBinaryExpressionWith classify node).
Proof.
  intros Hc. unfold rewriteBinaryExpressionWith.
  apply extends_bind; [apply extends_deref|]. intros n.
  destruct n; try (apply extends_fail; discriminate).
  apply extends_bind; [apply extends_deref|]. intros tok.
  destruct (operatorMethod (kind tok)); [|apply extends_ret].
  apply extends_bind; [apply Hc|]. intros l'.
  apply extends_bind; [apply Hc|]. intros r'.
  apply extends_createDecimalCall.
Qed.

Lemma extends_rewriteCallExpression (node : ref) :
  extends (rewriteCallExpression node).
Proof.
  unfold rewriteCallExpression, createIdentifier, createPropertyAccess, createCall.
  apply extends_bind; [apply extends_deref|]. intros n.
  destruct n; try (apply extends_fail; discriminate).
  apply extends_bind; [apply extends_deref|]. intros c.
  destruct c; try apply extends_ret.
  apply extends_bind; [apply extends_deref|]. intros e.
  case_bool_decide; [|apply extends_ret].
  apply extends_bind; [apply extends_deref|]. intros nm.
  cbv zeta. destruct (truthy _); [|apply extends_ret].
  eauto 10 with extends.
Qed.

Lemma extends_ensureFixedPoint (fuel : nat) (node : ref) :
  extends (ensureFixedPoint fuel node).
Proof.
  revert node. induction fuel as [|fuel IH]; intros node.
  - apply extends_fail. discriminate.
  - simpl. apply extends_bind; [apply extends_deref|]. intros n.
    case_bool_decide; [apply extends_ret|].
    case_bool_decide; [by apply extends_rewriteBinaryExpressionWith|].
    case_bool_decide; [apply extends_rewriteCallExpression|].
    apply extends_fail. discriminate.
Qed.

Lemma extends_applyRule (fuel : nat) (node : ref) :
  extends (applyRule fuel node).
Proof.
  unfold applyRule, rewriteBinaryExpression.
  apply extends_bind; [apply extends_deref|]. intros n.
  destruct (kind n); try apply extends_ret.
  - apply extends_bind; [apply extends_rewriteCallExpression|].
    intros; apply extends_ret.
  - apply extends_bind;
      [apply extends_rewriteBinaryExpressionWith, extends_ensureFixedPoint|].
    intros; apply extends_ret.
Qed.

(** ** Attaching a rewrite to the parent *)

(** A rewrite was computed for a node with another parent than a variable
    declaration or a call, on [1 + 2;].  The walker goes on from the
    rewrite, not from the original node.  On [Math.sin(1 + 2);] this shows
    in the store: the sum is visited as a child of the discarded call
    [Decimal.sin(1 + 2)], which receives the rewritten sum as its argument,
    and the original call keeps [1 + 2]. *)
Lemma decimalifyChild_descends_into_rewrite :
  (exists h',
     decimalifyNode 1 3 (Some 4) Samples.statement = Returns 11 h'
     /\ finalNode (Some 11) 3 <> 3)
  /\ (exists h',
        decimalify 10 10 Samples.sineStatement = Returns tt h'
        /\ h' !! 7 = Some (MkCallExpression 2 [6])
        /\ h' !! 14 = Some (MkCallExpression 13 [19])
        /\ treeOf 4 h' 19
           = Some (decimalCall (TNumericLiteral "1") "plus" (TNumericLiteral "2"))).
Proof.
  split.
  - eexists. split; [vm_compute; reflexivity|]. discriminate.
  - eexists. split; [vm_compute; reflexivity|]. repeat split.
Qed.

(** C6, as the code has it.  When a rewrite is computed for a node whose
    parent is neither a variable declaration nor a call, nothing is
    assigned: every node of the tree, the parent included, is as before.
    The walker then descends into the children of the rewrite, with the
    rewrite as their parent. *)
Theorem decimalifyChild_unattached_rewrite
    (fuel : nat) (h h' : Heap) (node p e : ref) (pn : Node) :
  h !! p = Some pn ->
  kind pn <> VariableDeclaration ->
  kind pn <> CallExpression ->
  applyRule fuel node h = Returns (Some e) h' ->
  e <> node ->
  decimalifyNode fuel node (Some p) h = Returns e h'
  /\ (forall r n, h !! r = Some n -> h' !! r = Some n)
  /\ decimalifyChild (S fuel) node (Some p) h
     = forEachChild (fun _ child => decimalifyChild fuel child (Some e)) tt e h'.
Proof.
  intros Hp Hdecl Hcall Hrule Hne.
  destruct (extends_applyRule _ _ _ _ _ Hrule) as [ext ->].
  assert (Hkeep : forall r n, h !! r = Some n -> (h ++ ext) !! r = Some n)
    by (intros r n; apply lookup_app_l_Some).
  assert (Hattach : attach node p (Some e) (h ++ ext) = Returns tt (h ++ ext)).
  { unfold attach. rewrite bool_decide_eq_true_2 by assumption.
    rewrite (bind_deref _ _ _ _ (Hkeep _ _ Hp)).
    destruct pn; simpl in *; try reflexivity; congruence. }
  pose proof (decimalifyNode_parent _ _ _ _ _ _ _ Hrule Hattach) as Hnode.
  split; [exact Hnode|]. split; [exact Hkeep|].
  simpl. by rewrite (bind_returns _ _ _ _ _ Hnode).
Qed.

Lemma decimalifyChild_unattached_rewrite_witness :
  decimalifyNode 1 3 (Some 4) Samples.statement
  = Returns 11 (Samples.statement ++ decimalCallNodes 7 0 "plus" 2)
  /\ (forall r n, Samples.statement !! r = Some n ->
        (Samples.statement ++ decimalCallNodes 7 0 "plus" 2) !! r = Some n).
Proof.
  pose proof (decimalifyChild_unattached_rewrite 1 Samples.statement
                (Samples.statement ++ decimalCallNodes 7 0 "plus" 2)
                3 4 11 (MkExpressionStatement 3) eq_refl) as H.
  destruct H as (H1 & H2 & _);
    [discriminate|discriminate|reflexivity|discriminate|].
  split; [exact H1|exact H2].
Defined.

(** C9.  When a rewrite is computed for a node whose parent is a call, the
    argument list of the parent is replaced by the list holding the rewrite
    alone, whatever it held before and whichever child of the call the node
    was; every other node is as before. *)
Theorem decimalifyChild_call_parent
    (fuel : nat) (h h' : Heap) (node p e callee : ref) (args : list ref) :
  h !! p = Some (MkCallExpression callee args) ->
  applyRule fuel node h = Returns (Some e) h' ->
  e <> node ->
  exists h'',
    decimalifyNode fuel node (Some p) h = Returns e h''
    /\ h'' !! p = Some (MkCallExpression callee [e])
    /\ (forall r, r <> p -> h'' !! r = h' !! r)
    /\ (forall r n, r <> p -> h !! r = Some n -> h'' !! r = Some n).
Proof.
  intros Hp Hrule Hne.
  destruct (extends_applyRule _ _ _ _ _ Hrule) as [ext ->].
  pose proof (lookup_app_l_Some _ ext _ _ Hp) as Hp'.
  pose proof (lookup_lt_Some _ _ _ Hp') as Hlt.
  exists (<[p := MkCallExpression callee [e]]> (h ++ ext)).
  assert (Hattach : attach node p (Some e) (h ++ ext)
                    = Returns tt (<[p := MkCallExpression callee [e]]> (h ++ ext))).
  { unfold attach. rewrite bool_decide_eq_true_2 by assumption.
    rewrite (bind_deref _ _ _ _ Hp'). unfold store.
    by rewrite bool_decide_eq_true_2. }
  split; [apply (decimalifyNode_parent _ _ _ _ _ _ _ Hrule Hattach)|].
  split; [by apply list_lookup_insert_eq|].
  split.
  - intros r Hr. by apply list_lookup_insert_ne.
  - intros r n Hr Hn. transitivity ((h ++ ext) !! r).
    + by apply list_lookup_insert_ne.
    + by apply lookup_app_l_Some.
Qed.

Lemma decimalifyChild_call_parent_witness :
  exists h'',
    decimalifyNode 1 4 (Some 9) Samples.twoArguments = Returns 17 h''
    /\ h'' !! 9 = Some (MkCallExpression 0 [17]).
Proof.
  destruct (decimalifyChild_call_parent 1 Samples.twoArguments
              (Samples.twoArguments ++ decimalCallNodes 13 1 "plus" 3)
              4 9 17 0 [4; 8] eq_refl eq_refl) as (h'' & H1 & H2 & _);
    [discriminate|].
  exists h''. split; [exact H1|exact H2].
Defined.

(** After the whole walk over [f(1 + 2, 3 * 4);] the call has one
    argument, the rewrite of the last argument visited. *)
Example decimalify_two_arguments :
  exists h',
    decimalify 10 12 Samples.twoArguments = Returns tt h'
    /\ treeOf 6 h' 9
       = Some (TCall (TIdentifier (JsString "f"))
                 [decimalCall (TNumericLiteral "3") "times" (TNumericLiteral "4")]).
Proof. eexists. split; [vm_compute; reflexivity|reflexivity]. Qed.

(** [let x = 1 + 2;] after the walk: the initializer is the rewrite. *)
Example decimalify_declaration :
  exists h',
    decimalify 10 9 Samples.declaration = Returns tt h'
    /\ treeOf 5 h' 5
       = Some (TVariableDeclaration (TIdentifier (JsString "x"))
                 (Some (decimalCall (TNumericLiteral "1") "plus"
                          (TNumericLiteral "2")))).
Proof. eexists. split; [vm_compute; reflexivity|reflexivity]. Qed.

(** ** The import check *)

Lemma closed_child (h : Heap) (r c : ref) (n : Node) :
  closed h -> h !! r = Some n -> c ∈ concat (fields n) -> is_Some (h !! c).
Proof.
  intros Hclosed Hr Hc. apply lookup_lt_is_Some.
  unfold closed in Hclosed. rewrite Forall_forall in Hclosed.
  specialize (Hclosed n (list_elem_of_lookup_2 _ _ _ Hr)).
  rewrite Forall_forall in Hclosed. by apply Hclosed.
Qed.

Lemma reads_here {A} (m : M A) (h : Heap) (a : A) :
  (forall ext, m (h ++ ext) = Returns a (h ++ ext)) -> m h = Returns a h.
Proof. intros H. specialize (H []). by rewrite app_nil_r in H. Qed.

Lemma reads_ret {A} (a : A) : reads (ret a).
Proof. intros h. right. by exists a. Qed.

Lemma reads_deref (r : ref) : reads (deref r).
Proof.
  intros h. unfold deref. destruct (h !! r) as [n|] eqn:Hr; [right|by left].
  exists n. intros ext. by rewrite (lookup_app_l_Some _ _ _ _ Hr).
Qed.

Lemma reads_bind {A B} (m : M A) (k : A -> M B) :
  reads m -> (forall a, reads (k a)) -> reads (bind m k).
Proof.
  intros Hm Hk h. unfold bind.
  destruct (Hm h) as [->|[a Ha]]; [by left|].
  destruct (Hk a h) as [Hstuck|[b Hb]].
  - left. by rewrite (reads_here _ _ _ Ha).
  - right. exists b. intros ext. by rewrite Ha.
Qed.

Lemma reads_declaresDecimalJS (node : ref) : reads (declaresDecimalJS node).
Proof.
  unfold declaresDecimalJS.
  apply reads_bind; [apply reads_deref|]. intros n.
  destruct n; try apply reads_ret.
  apply reads_bind; [apply reads_deref|]. intros ms.
  destruct ms; try apply reads_ret.
  case_bool_decide; [apply reads_ret|].
  destruct importClause as [clause|]; [|apply reads_ret].
  apply reads_bind; [apply reads_deref|]. intros c.
  destruct c as [| | | | | | | | | | | | | | |name ?| | | |]; try apply reads_ret.
  destruct name as [name|]; [|apply reads_ret].
  apply reads_bind; [apply reads_deref|]. intros i.
  destruct i; try apply reads_ret.
  case_bool_decide; apply reads_ret.
Qed.

Lemma declaresDecimalJS_closed (h : Heap) (s : ref) :
  closed h -> is_Some (h !! s) -> declaresDecimalJS s h <> Stuck.
Proof.
  intros Hclosed [n Hn]. unfold declaresDecimalJS.
  rewrite (bind_deref _ _ _ _ Hn).
  destruct n; try discriminate.
  destruct (closed_child h s moduleSpecifier _ Hclosed Hn) as [ms Hms];
    [destruct importClause; set_solver|].
  rewrite (bind_deref _ _ _ _ Hms).
  destruct ms; try discriminate.
  case_bool_decide; [discriminate|].
  destruct importClause as [clause|]; [|discriminate].
  destruct (closed_child h s clause _ Hclosed Hn) as [c Hc]; [set_solver|].
  rewrite (bind_deref _ _ _ _ Hc).
  destruct c as [| | | | | | | | | | | | | | |name ?| | | |]; try discriminate.
  destruct name as [name|]; [|discriminate].
  destruct (closed_child h clause name _ Hclosed Hc) as [i Hi]; [set_solver|].
  rewrite (bind_deref _ _ _ _ Hi).
  destruct i; try discriminate.
  case_bool_decide; discriminate.
Qed.

(** The test answers [true] exactly on the default imports of [Decimal]
    from ['decimal.js']. *)
Lemma isDecimalImport_spec (h : Heap) (s : ref) :
  isDecimalImport h s = true <-> DefaultDecimalImport h s.
Proof.
  unfold isDecimalImport, declaresDecimalJS, DefaultDecimalImport. split.
  - unfold bind at 1, deref at 1.
    destruct (h !! s) as [n|] eqn:Hn; [|discriminate].
    destruct n; try discriminate.
    unfold bind at 1, deref at 1.
    destruct (h !! moduleSpecifier) as [ms|] eqn:Hms; [|discriminate].
    destruct ms; try discriminate.
    case_bool_decide as Htext; [discriminate|].
    destruct importClause as [clause|]; [|discriminate].
    unfold bind at 1, deref at 1.
    destruct (h !! clause) as [c|] eqn:Hc; [|discriminate].
    destruct c as [| | | | | | | | | | | | | | |name bindings| | | |];
      try discriminate.
    destruct name as [name|]; [|discriminate].
    unfold bind at 1, deref at 1.
    destruct (h !! name) as [i|] eqn:Hi; [|discriminate].
    destruct i; try discriminate.
    case_bool_decide as Hname; [discriminate|].
    intros _. exists clause, moduleSpecifier, name, bindings.
    by subst.
  - intros (clause & spec & name & bindings & Hs & Hspec & Hclause & Hname).
    rewrite (bind_deref _ _ _ _ Hs), (bind_deref _ _ _ _ Hspec).
    rewrite bool_decide_eq_false_2 by (intros H; by apply H).
    rewrite (bind_deref _ _ _ _ Hclause), (bind_deref _ _ _ _ Hname).
    rewrite bool_decide_eq_false_2 by (intros H; by apply H).
    reflexivity.
Qed.

Lemma answers_closed (h : Heap) (s : ref) :
  closed h -> is_Some (h !! s) -> answers h s.
Proof.
  intros Hclosed Hs.
  destruct (reads_declaresDecimalJS s h) as [Hstuck|H]; [|exact H].
  by apply declaresDecimalJS_closed in Hstuck.
Qed.

Lemma answers_app (h ext : Heap) (s : ref) : answers h s -> answers (h ++ ext) s.
Proof.
  intros [b Hb]. exists b. intros ext'. rewrite <- app_assoc. apply Hb.
Qed.

Lemma answers_import (h : Heap) (s : ref) : DefaultDecimalImport h s -> answers h s.
Proof.
  intros Himp. destruct (reads_declaresDecimalJS s h) as [Hstuck|H]; [|exact H].
  apply isDecimalImport_spec in Himp. unfold isDecimalImport in Himp.
  by rewrite Hstuck in Himp.
Qed.

Lemma answers_value (h : Heap) (s : ref) :
  answers h s ->
  forall ext,
    declaresDecimalJS s (h ++ ext) = Returns (isDecimalImport h s) (h ++ ext)
    /\ isDecimalImport (h ++ ext) s = isDecimalImport h s.
Proof.
  intros [b Hb] ext.
  assert (Hhere : isDecimalImport h s = b).
  { unfold isDecimalImport. rewrite (reads_here _ _ _ Hb). by destruct b. }
  rewrite Hhere. split; [apply Hb|].
  unfold isDecimalImport. rewrite Hb. by destruct b.
Qed.

Lemma answers_here (h : Heap) (s : ref) :
  answers h s -> declaresDecimalJS s h = Returns (isDecimalImport h s) h.
Proof.
  intros Ha. destruct (answers_value h s Ha []) as [H _].
  by rewrite app_nil_r in H.
Qed.

Lemma visitNodes_importCallback (h : Heap) (statements : list ref) (acc : bool) :
  Forall (answers h) statements ->
  visitNodes importCallback acc statements h
  = Returns (acc || existsb (isDecimalImport h) statements) h.
Proof.
  intros Hall. revert acc.
  induction Hall as [|s rest Hs _ IH]; intros acc; simpl.
  - by rewrite orb_false_r.
  - destruct acc; simpl.
    + rewrite bind_ret. apply IH.
    + rewrite (bind_returns _ _ _ _ _ (answers_here h s Hs)). apply IH.
Qed.

Lemma sourceFileHasDecimalJS_returns (h : Heap) (sf eof : ref) (statements : list ref) :
  h !! sf = Some (MkSourceFile statements eof) ->
  h !! eof = Some (MkToken EndOfFileToken) ->
  Forall (answers h) statements ->
  sourceFileHasDecimalJS sf h
  = Returns (existsb (isDecimalImport h) statements) h.
Proof.
  intros Hsf Heof Hall. unfold sourceFileHasDecimalJS, forEachChild.
  rewrite (bind_deref _ _ _ _ Hsf). simpl.
  rewrite (bind_deref _ _ _ _ Hsf). simpl.
  rewrite (bind_returns _ _ _ _ _ (visitNodes_importCallback h statements false Hall)).
  rewrite (bind_deref _ _ _ _ Hsf). simpl.
  destruct (existsb (isDecimalImport h) statements); simpl; [reflexivity|].
  assert (Htoken : declaresDecimalJS eof h = Returns false h).
  { unfold declaresDecimalJS. by rewrite (bind_deref _ _ _ _ Heof). }
  unfold bind. by rewrite Htoken.
Qed.

Lemma ensureImport_present (h : Heap) (sf eof : ref) (statements : list ref) :
  h !! sf = Some (MkSourceFile statements eof) ->
  h !! eof = Some (MkToken EndOfFileToken) ->
  Forall (answers h) statements ->
  existsb (isDecimalImport h) statements = true ->
  ensureImport sf h = Returns sf h.
Proof.
  intros Hsf Heof Hall Hfound. unfold ensureImport.
  rewrite (bind_returns _ _ _ _ _ (sourceFileHasDecimalJS_returns _ _ _ _ Hsf Heof Hall)).
  by rewrite Hfound.
Qed.

Lemma ensureImport_absent (h : Heap) (sf eof : ref) (statements : list ref) :
  h !! sf = Some (MkSourceFile statements eof) ->
  h !! eof = Some (MkToken EndOfFileToken) ->
  Forall (answers h) statements ->
  existsb (isDecimalImport h) statements = false ->
  ensureImport sf h
  = Returns (List.length h + 4)
      (h ++ importNodes (List.length h)
         ++ [MkSourceFile ((List.length h + 3) :: statements) eof]).
Proof.
  intros Hsf Heof Hall Hfound. unfold ensureImport.
  rewrite (bind_returns _ _ _ _ _ (sourceFileHasDecimalJS_returns _ _ _ _ Hsf Heof Hall)).
  rewrite Hfound. change (negb false) with true. cbv iota.
  rewrite (bind_deref _ _ _ _ Hsf).
  unfold createIdentifier, createImportClause, createLiteral,
    createImportDeclaration, updateSourceFileNode.
  rewrite !bind_alloc.
  rewrite (bind_deref sf (MkSourceFile statements eof));
    [|do 4 apply lookup_app_l_Some; exact Hsf].
  unfold alloc, importNodes.
  rewrite <- !app_assoc. simpl. rewrite !length_app. simpl.
  repeat f_equal; lia.
Qed.

Lemma importNodes_import (h rest : Heap) :
  DefaultDecimalImport (h ++ importNodes (List.length h) ++ rest) (List.length h + 3).
Proof.
  exists (List.length h + 1), (List.length h + 2), (List.length h), None.
  unfold importNodes. repeat split; rewrite lookup_app_r by lia.
  - replace (List.length h + 3 - List.length h) with 3 by lia. reflexivity.
  - replace (List.length h + 2 - List.length h) with 2 by lia. reflexivity.
  - replace (List.length h + 1 - List.length h) with 1 by lia. reflexivity.
  - replace (List.length h - List.length h) with 0 by lia. reflexivity.
Qed.

Lemma DefaultDecimalImport_app (h ext : list Node) (s : nat) :
  answers h s ->
  DefaultDecimalImport (h ++ ext) s <-> DefaultDecimalImport h s.
Proof.
  intros Ha. rewrite <- !isDecimalImport_spec.
  by destruct (answers_value h s Ha ext) as [_ ->].
Qed.

Lemma DefaultDecimalImport_BindsDecimal (h : list Node) (s : nat) :
  DefaultDecimalImport h s -> BindsDecimal h s.
Proof.
  intros (clause & spec & name & bindings & Hs & Hspec & Hclause & Hname).
  exists clause, spec, (Some name), bindings.
  do 3 (split; [assumption|]). left. eauto.
Qed.

Lemma countDecimalImports_app (h ext : Heap) (statements : list ref) :
  Forall (answers h) statements ->
  countDecimalImports (h ++ ext) statements = countDecimalImports h statements.
Proof.
  unfold countDecimalImports. induction 1 as [|s rest Hs _ IH]; [reflexivity|].
  rewrite !filter_cons.
  pose proof (DefaultDecimalImport_app h ext s Hs) as Hiff.
  destruct (decide (DefaultDecimalImport (h ++ ext) s)),
    (decide (DefaultDecimalImport h s)); simpl; try tauto; by rewrite IH.
Qed.

Lemma countDecimalImports_existsb (h : Heap) (statements : list ref) :
  if existsb (isDecimalImport h) statements
  then 1 <= countDecimalImports h statements
  else countDecimalImports h statements = 0.
Proof.
  unfold countDecimalImports. induction statements as [|s rest IH]; [reflexivity|].
  rewrite filter_cons. simpl existsb.
  pose proof (isDecimalImport_spec h s) as Hspec.
  destruct (isDecimalImport h s), (decide (DefaultDecimalImport h s)) as [Hd|Hd];
    simpl; try lia; try exact IH.
  - exfalso. apply Hd. by apply Hspec.
  - apply Hspec in Hd. discriminate.
Qed.

Lemma statements_answer (h : Heap) (sf eof : ref) (statements : list ref) :
  closed h ->
  h !! sf = Some (MkSourceFile statements eof) ->
  Forall (answers h) statements.
Proof.
  intros Hclosed Hsf. apply Forall_forall. intros s Hs.
  apply answers_closed; [assumption|].
  apply (closed_child h sf s _ Hclosed Hsf). simpl. set_solver.
Qed.

(** ** The import step of the loader *)

(** Two files on which the step does not leave exactly one import that
    binds [Decimal].  A file that imports [Decimal] from ['decimal.js']
    twice passes the check, so nothing is done and both imports stay.  A
    file that binds [Decimal] through a named import fails the check, so a
    default import is put in front of it: afterwards two declarations bind
    the local name [Decimal], one of them a default import. *)
Lemma ensureImport_not_exactly_one :
  (ensureImport 9 Samples.importedTwice = Returns 9 Samples.importedTwice
   /\ Samples.importedTwice !! 9 = Some (MkSourceFile [3; 7] 8)
   /\ BindsDecimal Samples.importedTwice 3
   /\ BindsDecimal Samples.importedTwice 7
   /\ countDecimalImports Samples.importedTwice [3; 7] = 2)
  /\ (exists h',
        ensureImport 12 Samples.namedImport = Returns 17 h'
        /\ h' !! 17 = Some (MkSourceFile [16; 5; 10] 11)
        /\ BindsDecimal h' 16
        /\ BindsDecimal h' 5
        /\ countDecimalImports h' [16; 5; 10] = 1).
Proof.
  split.
  - split; [reflexivity|]. split; [reflexivity|].
    split; [|split; [|reflexivity]].
    + exists 1, 2, (Some 0), None. repeat split. left. by exists 0.
    + exists 5, 6, (Some 4), None. repeat split. left. by exists 4.
  - eexists. split; [vm_compute; reflexivity|]. split; [reflexivity|].
    split; [|split; [|reflexivity]].
    + exists 14, 15, (Some 13), None. repeat split. left. by exists 13.
    + exists 3, 4, None, (Some 2). repeat split. right; right.
      exists 2, [1], 1, None, 0. repeat split. set_solver.
Qed.

(** C7, as the code has it.  After the import step the file has at least
    one default import of [Decimal] from ['decimal.js'], so at least one
    import that binds [Decimal], and exactly one default import when it had
    at most one before; imports already present are never removed.  The
    imports are counted by what they are, [DefaultDecimalImport], not by
    the check of the program.  Running the step again changes nothing.
    When the import is added it is a new declaration placed first, the
    statements of the file following in their order; no existing node is
    modified. *)
Theorem ensureImport_once
    (h : list Node) (sf eof : nat) (statements : list nat) :
  closed h ->
  h !! sf = Some (MkSourceFile statements eof) ->
  h !! eof = Some (MkToken EndOfFileToken) ->
  exists sf' h' statements',
    ensureImport sf h = Returns sf' h'
    /\ h' !! sf' = Some (MkSourceFile statements' eof)
    /\ (forall r n, h !! r = Some n -> h' !! r = Some n)
    /\ 1 <= countDecimalImports h' statements'
    /\ countDecimalImports h' statements'
       = Nat.max 1 (countDecimalImports h statements)
    /\ ensureImport sf' h' = Returns sf' h'
    /\ ((sf' = sf /\ h' = h /\ statements' = statements)
        \/ (exists declaration,
              statements' = declaration :: statements
              /\ h !! declaration = None
              /\ DefaultDecimalImport h' declaration))
    /\ (exists stmt,
          stmt ∈ statements'
          /\ DefaultDecimalImport h' stmt /\ BindsDecimal h' stmt).
Proof.
  intros Hclosed Hsf Heof.
  pose proof (statements_answer h sf eof statements Hclosed Hsf) as Hall.
  pose proof (countDecimalImports_existsb h statements) as Hcount.
  destruct (existsb (isDecimalImport h) statements) eqn:Hfound.
  - pose proof (ensureImport_present h sf eof statements Hsf Heof Hall Hfound) as Hrun.
    exists sf, h, statements.
    do 6 (split; [first [assumption | lia | auto]|]).
    split; [by left|].
    apply existsb_exists in Hfound as (stmt & Hin & Htest).
    apply isDecimalImport_spec in Htest.
    exists stmt. split; [by apply list_elem_of_In|].
    split; [exact Htest|by apply DefaultDecimalImport_BindsDecimal].
  - pose proof (ensureImport_absent h sf eof statements Hsf Heof Hall Hfound) as Hrun.
    set (base := List.length h) in *.
    set (file := MkSourceFile ((base + 3) :: statements) eof) in *.
    set (h' := h ++ importNodes base ++ [file]) in *.
    assert (Hkeep : forall r n, h !! r = Some n -> h' !! r = Some n)
      by (intros r n; apply lookup_app_l_Some).
    assert (Hfile : h' !! (base + 4) = Some file).
    { subst h'. rewrite lookup_app_r by (fold base; lia).
      replace (base + 4 - List.length h) with 4 by (subst base; lia).
      reflexivity. }
    assert (Himport : DefaultDecimalImport h' (base + 3))
      by apply importNodes_import.
    assert (Hall' : Forall (answers h') ((base + 3) :: statements)).
    { constructor; [by apply answers_import|].
      eapply Forall_impl; [exact Hall|]. intros s. apply answers_app. }
    assert (Hcount' : countDecimalImports h' ((base + 3) :: statements) = 1).
    { unfold countDecimalImports. rewrite filter_cons.
      rewrite decide_True by exact Himport. simpl.
      fold (countDecimalImports h' statements). subst h'.
      by rewrite (countDecimalImports_app h _ statements Hall), Hcount. }
    exists (base + 4), h', ((base + 3) :: statements).
    split; [exact Hrun|]. split; [exact Hfile|]. split; [exact Hkeep|].
    split; [lia|]. split; [lia|]. split; [|split].
    + apply (ensureImport_present h' (base + 4) eof ((base + 3) :: statements));
        auto.
      simpl. by rewrite (proj2 (isDecimalImport_spec h' (base + 3)) Himport).
    + right. exists (base + 3). split; [reflexivity|]. split; [|exact Himport].
      apply lookup_ge_None. subst base. lia.
    + exists (base + 3). split; [set_solver|].
      split; [exact Himport|by apply DefaultDecimalImport_BindsDecimal].
Qed.

Lemma ensureImport_once_witness :
  exists sf' h' statements',
    ensureImport 10 Samples.importedOnce = Returns sf' h'
    /\ h' !! sf' = Some (MkSourceFile statements' 9)
    /\ countDecimalImports h' statements' = 1.
Proof.
  destruct (ensureImport_once Samples.importedOnce 10 9 [3; 8]
              ltac:(unfold closed; repeat constructor) eq_refl eq_refl)
    as (sf' & h' & statements' & H1 & H2 & _ & _ & H5 & _).
  exists sf', h', statements'.
  split; [exact H1|]. split; [exact H2|exact H5].
Defined.

(** ** What the check recognizes *)

(** An import declaration without a default name, whether it has a named
    or a namespace binding, is not recognized. *)
Lemma DefaultDecimalImport_needs_default_name (h : list Node) (stmt clause spec : nat)
    (bindings : option nat) :
  h !! stmt = Some (MkImportDeclaration (Some clause) spec) ->
  h !! clause = Some (MkImportClause None bindings) ->
  ~ DefaultDecimalImport h stmt.
Proof.
  intros Hstmt Hclause (clause' & spec' & name & bindings' & Hs & _ & Hc & _).
  rewrite Hstmt in Hs. injection Hs as <- <-.
  rewrite Hclause in Hc. discriminate.
Qed.

(** C10.  [sourceFileHasDecimalJS] answers [true] only when a top-level
    statement is an import declaration whose module specifier is the string
    literal ['decimal.js'] and whose clause has the default name [Decimal].
    When no statement is one, as in a file that binds [Decimal] through a
    named or a namespace import instead, the check answers [false] and the
    loader puts a default import of [Decimal] in front of the statements,
    which are all kept. *)
Theorem sourceFileHasDecimalJS_default_import_only
    (h : list Node) (sf eof : nat) (statements : list nat) :
  closed h ->
  h !! sf = Some (MkSourceFile statements eof) ->
  h !! eof = Some (MkToken EndOfFileToken) ->
  (forall h',
     sourceFileHasDecimalJS sf h = Returns true h' ->
     exists stmt, stmt ∈ statements /\ DefaultDecimalImport h stmt)
  /\ ((forall stmt, stmt ∈ statements -> ~ DefaultDecimalImport h stmt) ->
      sourceFileHasDecimalJS sf h = Returns false h
      /\ exists sf' h' declaration,
           ensureImport sf h = Returns sf' h'
           /\ h' !! sf' = Some (MkSourceFile (declaration :: statements) eof)
           /\ h !! declaration = None
           /\ DefaultDecimalImport h' declaration
           /\ (forall r n, h !! r = Some n -> h' !! r = Some n)).
Proof.
  intros Hclosed Hsf Heof.
  pose proof (statements_answer h sf eof statements Hclosed Hsf) as Hall.
  pose proof (sourceFileHasDecimalJS_returns h sf eof statements Hsf Heof Hall)
    as Hcheck.
  split.
  - intros h' Htrue. rewrite Hcheck in Htrue. injection Htrue as Hfound _.
    apply existsb_exists in Hfound as (stmt & Hin & Htest).
    exists stmt. split; [by apply list_elem_of_In|by apply isDecimalImport_spec].
  - intros Hnone.
    assert (Hfound : existsb (isDecimalImport h) statements = false).
    { destruct (existsb (isDecimalImport h) statements) eqn:E; [|reflexivity].
      apply existsb_exists in E as (stmt & Hin & Htest).
      exfalso. apply (Hnone stmt); [by apply list_elem_of_In|].
      by apply isDecimalImport_spec. }
    split; [by rewrite Hcheck, Hfound|].
    exists (List.length h + 4),
      (h ++ importNodes (List.length h)
         ++ [MkSourceFile ((List.length h + 3) :: statements) eof]),
      (List.length h + 3).
    split; [by apply ensureImport_absent|]. split.
    { rewrite lookup_app_r by lia.
      replace (List.length h + 4 - List.length h) with 4 by lia. reflexivity. }
    split; [apply lookup_ge_None; lia|].
    split; [apply importNodes_import|].
    intros r n. apply lookup_app_l_Some.
Qed.

Lemma sourceFileHasDecimalJS_default_import_only_witness :
  sourceFileHasDecimalJS 12 Samples.namedImport = Returns false Samples.namedImport
  /\ exists sf' h' declaration,
       ensureImport 12 Samples.namedImport = Returns sf' h'
       /\ h' !! sf' = Some (MkSourceFile [declaration; 5; 10] 11)
       /\ DefaultDecimalImport h' declaration.
Proof.
  destruct (proj2 (sourceFileHasDecimalJS_default_import_only Samples.namedImport
                     12 11 [5; 10] ltac:(unfold closed; repeat constructor)
                     eq_refl eq_refl))
    as (Hfalse & sf' & h' & declaration & H1 & H2 & _ & H4 & _).
  - intros stmt Hin. rewrite !elem_of_cons, elem_of_nil in Hin.
    destruct Hin as [->|[->|[]]].
    + by apply (DefaultDecimalImport_needs_default_name _ 5 3 4 (Some 2)).
    + by apply (DefaultDecimalImport_needs_default_name _ 10 8 9 (Some 7)).
  - split; [exact Hfalse|].
    exists sf', h', declaration. split; [exact H1|]. split; [exact H2|exact H4].
Defined.

(** * Further properties of the rules *)

(** ** What a rule can return *)

Lemma bind_deref_None {A} (r : nat) (k : Node -> M A) (h : list Node) :
  h !! r = None -> bind (deref r) k h = Stuck.
Proof. intros H. unfold bind, deref. by rewrite H. Qed.

Lemma rewriteCallExpression_cases (h : list Node) (node callee : nat)
    (args : list nat) :
  h !! node = Some (MkCallExpression callee args) ->
  rewriteCallExpression node h = Stuck
  \/ rewriteCallExpression node h = Returns node h
  \/ exists m,
       truthy m = true
       /\ rewriteCallExpression node h
          = Returns (List.length h + 3)
              (h ++ staticCallNodes (List.length h) m args).
Proof.
  intros Hnode. unfold rewriteCallExpression.
  rewrite (bind_deref _ _ _ _ Hnode).
  destruct (h !! callee) as [c|] eqn:Hcallee;
    [rewrite (bind_deref _ _ _ _ Hcallee)
    |rewrite (bind_deref_None _ _ _ Hcallee); by left].
  destruct c as [| | | |pe pn| | | | | | | | | | | | | | |];
    try (right; left; reflexivity).
  destruct (h !! pe) as [e|] eqn:He;
    [rewrite (bind_deref _ _ _ _ He)
    |rewrite (bind_deref_None _ _ _ He); by left].
  case_bool_decide as Hns; [|right; left; reflexivity].
  destruct (h !! pn) as [nm|] eqn:Hnm;
    [rewrite (bind_deref _ _ _ _ Hnm)
    |rewrite (bind_deref_None _ _ _ Hnm); by left].
  cbv zeta.
  destruct (truthy (getProperty TRIG_FUNCTIONS (identifierText nm))) eqn:Ht;
    [|right; left; reflexivity].
  right; right. exists (getProperty TRIG_FUNCTIONS (identifierText nm)).
  split; [exact Ht|].
  unfold createIdentifier, createPropertyAccess, createCall.
  rewrite !bind_alloc. unfold alloc, staticCallNodes.
  rewrite <- !app_assoc. simpl. rewrite !length_app. simpl.
  repeat f_equal; lia.
Qed.

Lemma lookup_staticCallNodes (h : list Node) (m : JsValue) (args : list nat) :
  let base := List.length h in
  let h' := h ++ staticCallNodes base m args in
  h' !! base = Some (MkIdentifier (JsString "Decimal"))
  /\ h' !! (base + 1) = Some (MkIdentifier m)
  /\ h' !! (base + 2) = Some (MkPropertyAccessExpression base (base + 1))
  /\ h' !! (base + 3) = Some (MkCallExpression (base + 2) args).
Proof.
  intros base h'. subst h'. unfold staticCallNodes.
  repeat split; rewrite lookup_app_r by lia.
  - replace (base - List.length h) with 0 by (subst base; lia). reflexivity.
  - replace (base + 1 - List.length h) with 1 by (subst base; lia). reflexivity.
  - replace (base + 2 - List.length h) with 2 by (subst base; lia). reflexivity.
  - replace (base + 3 - List.length h) with 3 by (subst base; lia). reflexivity.
Qed.

(** X4.  On a call expression of a store without dangling references the
    call rule always returns: it never throws.  It returns either the node
    it was given, the store untouched, or a newly allocated call whose
    argument list is the argument list of the original call. *)
Theorem rewriteCallExpression_total
    (h : list Node) (node callee : nat) (args : list nat) :
  closed h ->
  h !! node = Some (MkCallExpression callee args) ->
  exists r h',
    rewriteCallExpression node h = Returns r h'
    /\ ((r = node /\ h' = h)
        \/ (h !! r = None
            /\ (forall i n, h !! i = Some n -> h' !! i = Some n)
            /\ exists access, h' !! r = Some (MkCallExpression access args))).
Proof.
  intros Hclosed Hnode.
  destruct (rewriteCallExpression_cases h node callee args Hnode)
    as [Hstuck|[Hsame|(m & _ & Hnew)]].
  - exfalso. revert Hstuck. unfold rewriteCallExpression.
    rewrite (bind_deref _ _ _ _ Hnode).
    destruct (closed_child h node callee _ Hclosed Hnode) as [c Hc];
      [set_solver|].
    rewrite (bind_deref _ _ _ _ Hc).
    destruct c as [| | | |pe pn| | | | | | | | | | | | | | |]; try discriminate.
    destruct (closed_child h callee pe _ Hclosed Hc) as [e He];
      [set_solver|].
    rewrite (bind_deref _ _ _ _ He).
    case_bool_decide; [|discriminate].
    destruct (closed_child h callee pn _ Hclosed Hc) as [nm Hnm];
      [set_solver|].
    rewrite (bind_deref _ _ _ _ Hnm). cbv zeta.
    destruct (truthy _); [|discriminate].
    unfold createIdentifier, createPropertyAccess, createCall.
    rewrite !bind_alloc. discriminate.
  - exists node, h. split; [exact Hsame|]. by left.
  - eexists _, _. split; [exact Hnew|]. right.
    split; [apply lookup_ge_None; lia|].
    split; [intros i n; apply lookup_app_l_Some|].
    exists (List.length h + 2).
    apply (lookup_staticCallNodes h m args).
Qed.

Lemma rewriteCallExpression_total_witness :
  exists r h',
    rewriteCallExpression 5 Samples.sine = Returns r h'
    /\ ((r = 5 /\ h' = Samples.sine)
        \/ (Samples.sine !! r = None
            /\ (forall i n, Samples.sine !! i = Some n -> h' !! i = Some n)
            /\ exists access, h' !! r = Some (MkCallExpression access [4]))).
Proof.
  apply (rewriteCallExpression_total Samples.sine 5 3 [4]);
    [unfold closed; repeat constructor|reflexivity].
Defined.

Lemma rewriteCallExpression_decimalCall (h : list Node) (l r : nat) (m : string) :
  let h' := h ++ decimalCallNodes (List.length h) l m r in
  rewriteCallExpression (List.length h + 4) h' = Returns (List.length h + 4) h'.
Proof.
  intros h'.
  destruct (lookup_decimalCallNodes h l r m)
    as (_ & Hconstruct & _ & Haccess & Hcall).
  fold h' in Hconstruct, Haccess, Hcall.
  unfold rewriteCallExpression.
  rewrite (bind_deref _ _ _ _ Hcall), (bind_deref _ _ _ _ Haccess),
    (bind_deref _ _ _ _ Hconstruct).
  reflexivity.
Qed.

Lemma rewriteCallExpression_staticCall (h : list Node) (m : JsValue) (args : list nat) :
  let h' := h ++ staticCallNodes (List.length h) m args in
  rewriteCallExpression (List.length h + 3) h' = Returns (List.length h + 3) h'.
Proof.
  intros h'.
  destruct (lookup_staticCallNodes h m args) as (Hdecimal & _ & Haccess & Hcall).
  fold h' in Hdecimal, Haccess, Hcall.
  unfold rewriteCallExpression.
  rewrite (bind_deref _ _ _ _ Hcall), (bind_deref _ _ _ _ Haccess),
    (bind_deref _ _ _ _ Hdecimal).
  reflexivity.
Qed.

Lemma ensureFixedPoint_unfold (fuel : nat) (h : list Node) (node : nat) (n : Node) :
  h !! node = Some n ->
  ensureFixedPoint (S fuel) node h
  = (if bool_decide (NumericLiteral = kind n) then ret node
     else if bool_decide (kind n = BinaryExpression)
          then rewriteBinaryExpressionWith (ensureFixedPoint fuel) node
     else if bool_decide (kind n = CallExpression)
          then rewriteCallExpression node
     else throw (UnsupportedNodeKind (kind n))) h.
Proof. intros Hn. simpl. by rewrite (bind_deref _ _ _ _ Hn). Qed.

(** The three ways in which the strict classifier returns: the node it was
    given, which it would return again; the call built by the arithmetic
    rule; the call built by the call rule. *)
Lemma ensureFixedPoint_result (fuel : nat) (node r : nat) (h h' : list Node) :
  ensureFixedPoint fuel node h = Returns r h' ->
  (r = node /\ h' = h
   /\ forall fuel', ensureFixedPoint (S fuel') node h = Returns node h)
  \/ (exists ext l' m r',
        r = List.length (h ++ ext) + 4
        /\ h' = (h ++ ext) ++ decimalCallNodes (List.length (h ++ ext)) l' m r')
  \/ (exists m args,
        r = List.length h + 3
        /\ h' = h ++ staticCallNodes (List.length h) m args).
Proof.
  destruct fuel as [|fuel]; [discriminate|].
  destruct (h !! node) as [n|] eqn:Hnode;
    [|simpl; by rewrite (bind_deref_None _ _ _ Hnode)].
  rewrite (ensureFixedPoint_unfold _ _ _ _ Hnode).
  case_bool_decide as Hlit; [|case_bool_decide as Hbin; [|case_bool_decide as Hcall]].
  - (* numeric literal *)
    unfold ret. intros [= <- <-]. left. repeat split.
    intros fuel'. rewrite (ensureFixedPoint_unfold _ _ _ _ Hnode).
    by rewrite bool_decide_eq_true_2.
  - (* binary expression *)
    unfold rewriteBinaryExpressionWith.
    rewrite (bind_deref _ _ _ _ Hnode).
    destruct n; try discriminate.
    destruct (h !! operatorToken) as [tok|] eqn:Hop;
      [rewrite (bind_deref _ _ _ _ Hop)
      |by rewrite (bind_deref_None _ _ _ Hop)].
    destruct (operatorMethod (kind tok)) as [m|] eqn:Hm.
    + intros Hrun.
      apply bind_inv in Hrun as (l' & h1 & Hl & Hrun).
      apply bind_inv in Hrun as (r' & h2 & Hr & Hrun).
      apply extends_ensureFixedPoint in Hl as [ext1 ->].
      apply extends_ensureFixedPoint in Hr as [ext2 ->].
      rewrite createDecimalCall_returns in Hrun. injection Hrun as <- <-.
      right; left. exists (ext1 ++ ext2), l', m, r'.
      rewrite !app_assoc. split; reflexivity.
    + unfold ret. intros [= <- <-]. left. repeat split.
      intros fuel'. rewrite (ensureFixedPoint_binary _ _ _ _ _ _ Hnode).
      unfold rewriteBinaryExpression, rewriteBinaryExpressionWith.
      by rewrite (bind_deref _ _ _ _ Hnode), (bind_deref _ _ _ _ Hop), Hm.
  - (* call *)
    intros Hrun.
    destruct n;
      try (revert Hrun; unfold rewriteCallExpression;
           rewrite (bind_deref _ _ _ _ Hnode); discriminate).
    destruct (rewriteCallExpression_cases h node _ _ Hnode)
      as [Hstuck|[Hsame|(m & _ & Hnew)]].
    + by rewrite Hstuck in Hrun.
    + rewrite Hsame in Hrun. injection Hrun as <- <-. left. repeat split.
      intros fuel'. by rewrite (ensureFixedPoint_call _ _ _ _ _ Hnode).
    + rewrite Hnew in Hrun. injection Hrun as <- <-. right; right. eauto.
  - discriminate.
Qed.

(** X1.  The strict classifier and the two rules never assign to a node
    that exists: the store they leave is the store they were given,
    followed by the nodes they created. *)
Theorem rules_only_allocate
    (fuel : nat) (node r : nat) (h h' : list Node) :
  ensureFixedPoint fuel node h = Returns r h'
  \/ rewriteBinaryExpression fuel node h = Returns r h'
  \/ rewriteCallExpression node h = Returns r h' ->
  exists created,
    h' = h ++ created
    /\ forall i n, h !! i = Some n -> h' !! i = Some n.
Proof.
  intros [H|[H|H]].
  - apply extends_ensureFixedPoint in H as [ext ->]. exists ext.
    split; [reflexivity|]. intros i n. apply lookup_app_l_Some.
  - apply extends_rewriteBinaryExpressionWith in H as [ext ->];
      [|apply extends_ensureFixedPoint].
    exists ext. split; [reflexivity|]. intros i n. apply lookup_app_l_Some.
  - apply extends_rewriteCallExpression in H as [ext ->]. exists ext.
    split; [reflexivity|]. intros i n. apply lookup_app_l_Some.
Qed.

Lemma rules_only_allocate_witness :
  exists created,
    Samples.nested ++ decimalCallNodes 7 0 "plus" 2
      ++ decimalCallNodes 12 11 "times" 5
    = Samples.nested ++ created
    /\ forall i n,
         Samples.nested !! i = Some n ->
         (Samples.nested ++ decimalCallNodes 7 0 "plus" 2
            ++ decimalCallNodes 12 11 "times" 5) !! i = Some n.
Proof.
  apply (rules_only_allocate 3 6 16 Samples.nested).
  left. reflexivity.
Defined.

(** X2.  What the strict classifier returns is either the node it was
    given, with nothing allocated, or a call expression that did not exist
    before.  So comparing the result with the argument by reference tells
    whether a rewrite took place. *)
Theorem ensureFixedPoint_same_or_fresh
    (fuel : nat) (node r : nat) (h h' : list Node) :
  ensureFixedPoint fuel node h = Returns r h' ->
  (r = node /\ h' = h)
  \/ (h !! r = None
      /\ exists callee args, h' !! r = Some (MkCallExpression callee args)).
Proof.
  intros Hrun.
  destruct (ensureFixedPoint_result _ _ _ _ _ Hrun)
    as [(-> & -> & _)|[(ext & l' & m & r' & -> & ->)|(m & args & -> & ->)]].
  - by left.
  - right. split; [apply lookup_ge_None; rewrite length_app; lia|].
    eexists _, _. apply (lookup_decimalCallNodes (h ++ ext) l' r' m).
  - right. split; [apply lookup_ge_None; lia|].
    eexists _, _. apply (lookup_staticCallNodes h m args).
Qed.

Lemma ensureFixedPoint_same_or_fresh_witness :
  (16 = 6 /\ Samples.nested ++ decimalCallNodes 7 0 "plus" 2
               ++ decimalCallNodes 12 11 "times" 5 = Samples.nested)
  \/ (Samples.nested !! 16 = None
      /\ exists callee args,
           (Samples.nested ++ decimalCallNodes 7 0 "plus" 2
              ++ decimalCallNodes 12 11 "times" 5) !! 16
           = Some (MkCallExpression callee args)).
Proof.
  apply (ensureFixedPoint_same_or_fresh 3 6 16 Samples.nested). reflexivity.
Defined.

(** X5.  The result of the strict classifier is a fixed point of it:
    classifying the returned node again, in the store the first
    classification left, returns the same node and allocates nothing.
    The calls the rules build are not rewritten a second time. *)
Theorem ensureFixedPoint_idempotent
    (fuel fuel' : nat) (node r : nat) (h h' : list Node) :
  ensureFixedPoint fuel node h = Returns r h' ->
  ensureFixedPoint (S fuel') r h' = Returns r h'.
Proof.
  intros Hrun.
  destruct (ensureFixedPoint_result _ _ _ _ _ Hrun)
    as [(-> & -> & Hagain)|[(ext & l' & m & r' & -> & ->)|(m & args & -> & ->)]].
  - apply Hagain.
  - destruct (lookup_decimalCallNodes (h ++ ext) l' r' m) as (_ & _ & _ & _ & Hcall).
    rewrite (ensureFixedPoint_call _ _ _ _ _ Hcall).
    apply rewriteCallExpression_decimalCall.
  - destruct (lookup_staticCallNodes h m args) as (_ & _ & _ & Hcall).
    rewrite (ensureFixedPoint_call _ _ _ _ _ Hcall).
    apply rewriteCallExpression_staticCall.
Qed.

Lemma ensureFixedPoint_idempotent_witness :
  ensureFixedPoint 1 16
    (Samples.nested ++ decimalCallNodes 7 0 "plus" 2
       ++ decimalCallNodes 12 11 "times" 5)
  = Returns 16
      (Samples.nested ++ decimalCallNodes 7 0 "plus" 2
         ++ decimalCallNodes 12 11 "times" 5).
Proof.
  apply (ensureFixedPoint_idempotent 3 0 6 16 Samples.nested). reflexivity.
Defined.

(** X3.  The only exception the strict classifier raises is
    [UnsupportedNodeKind], and the kind it carries is never the kind of a
    numeric literal, of a binary expression or of a call: those three are
    always accepted, at every depth of the operands. *)
Theorem ensureFixedPoint_throws_only_unsupported
    (fuel : nat) (node : nat) (h : list Node) (e : JsError) :
  ensureFixedPoint fuel node h = Throws e ->
  exists k,
    e = UnsupportedNodeKind k
    /\ k <> NumericLiteral /\ k <> BinaryExpression /\ k <> CallExpression.
Proof.
  revert node h. induction fuel as [|fuel IH]; intros node h; [discriminate|].
  destruct (h !! node) as [n|] eqn:Hnode;
    [|simpl; by rewrite (bind_deref_None _ _ _ Hnode)].
  rewrite (ensureFixedPoint_unfold _ _ _ _ Hnode).
  case_bool_decide as Hlit; [|case_bool_decide as Hbin; [|case_bool_decide as Hcall]].
  - discriminate.
  - unfold rewriteBinaryExpressionWith.
    rewrite (bind_deref _ _ _ _ Hnode).
    destruct n; try discriminate.
    destruct (h !! operatorToken) as [tok|] eqn:Hop;
      [rewrite (bind_deref _ _ _ _ Hop)
      |by rewrite (bind_deref_None _ _ _ Hop)].
    destruct (operatorMethod (kind tok)); [|discriminate].
    unfold bind at 1.
    destruct (ensureFixedPoint fuel left h) as [l' h1| | |] eqn:Hl;
      try discriminate; [|intros [= <-]; by eapply IH].
    unfold bind at 1.
    destruct (ensureFixedPoint fuel right h1) as [r' h2| | |] eqn:Hr;
      try discriminate.
    intros [= <-]. by eapply IH.
  - intros Hrun.
    destruct n;
      try (revert Hrun; unfold rewriteCallExpression;
           rewrite (bind_deref _ _ _ _ Hnode); discriminate).
    destruct (rewriteCallExpression_cases h node _ _ Hnode)
      as [H|[H|(m & _ & H)]]; by rewrite H in Hrun.
  - intros [= <-]. exists (kind n). repeat split; congruence.
Qed.

Lemma ensureFixedPoint_throws_only_unsupported_witness :
  exists k,
    UnsupportedNodeKind ParenthesizedExpression = UnsupportedNodeKind k
    /\ k <> NumericLiteral /\ k <> BinaryExpression /\ k <> CallExpression.
Proof.
  apply (ensureFixedPoint_throws_only_unsupported 2 7 Samples.parenthesized).
  reflexivity.
Defined.

(** * Further properties of the walker *)

(** ** One step of the walker *)

Lemma rewriteBinaryExpression_same_or_fresh
    (fuel : nat) (node r : nat) (h h' : list Node) :
  rewriteBinaryExpression fuel node h = Returns r h' ->
  (r = node /\ h' = h)
  \/ (h !! r = None
      /\ exists callee args, h' !! r = Some (MkCallExpression callee args)).
Proof.
  intros Hrun.
  destruct (h !! node) as [n|] eqn:Hnode.
  - destruct n;
      try (revert Hrun; unfold rewriteBinaryExpression, rewriteBinaryExpressionWith;
           rewrite (bind_deref _ _ _ _ Hnode); discriminate).
    rewrite <- (ensureFixedPoint_binary _ _ _ _ _ _ Hnode) in Hrun.
    destruct (ensureFixedPoint_result _ _ _ _ _ Hrun)
      as [(-> & -> & _)|[(ext & l' & m & r' & -> & ->)|(m & args & -> & ->)]].
    + by left.
    + right. split; [apply lookup_ge_None; rewrite length_app; lia|].
      eexists _, _. apply (lookup_decimalCallNodes (h ++ ext) l' r' m).
    + right. split; [apply lookup_ge_None; lia|].
      eexists _, _. apply (lookup_staticCallNodes h m args).
  - revert Hrun. unfold rewriteBinaryExpression, rewriteBinaryExpressionWith.
    by rewrite (bind_deref_None _ _ _ Hnode).
Qed.

Lemma applyRule_result (fuel : nat) (node : nat) (e : option nat) (h h' : list Node) :
  applyRule fuel node h = Returns e h' ->
  (e = None /\ h' = h)
  \/ (e = Some node /\ h' = h)
  \/ (exists r callee args,
        e = Some r /\ h !! r = None /\ r <> node
        /\ h' !! r = Some (MkCallExpression callee args)).
Proof.
  unfold applyRule.
  destruct (h !! node) as [n|] eqn:Hnode;
    [rewrite (bind_deref _ _ _ _ Hnode)|by rewrite (bind_deref_None _ _ _ Hnode)].
  assert (Hfresh : forall r, h !! r = None -> r <> node) by congruence.
  destruct (kind n) eqn:Hkind; try (intros [= <- <-]; by left).
  - (* call *)
    intros Hrun. apply bind_inv in Hrun as (r & h1 & Hrule & [= <- <-]).
    destruct n; try discriminate;
      try (revert Hrule; unfold rewriteCallExpression;
           rewrite (bind_deref _ _ _ _ Hnode); discriminate).
    destruct (rewriteCallExpression_cases h node _ _ Hnode)
      as [H|[H|(m & _ & H)]]; rewrite H in Hrule; try discriminate;
      injection Hrule as <- <-.
    + right; left. by split.
    + right; right.
      assert (Hnone : h !! (List.length h + 3) = None)
        by (apply lookup_ge_None; lia).
      eexists _, _, _. split; [reflexivity|]. split; [exact Hnone|].
      split; [by apply Hfresh|].
      apply (lookup_staticCallNodes h m arguments).
  - (* binary expression *)
    intros Hrun. apply bind_inv in Hrun as (r & h1 & Hrule & [= <- <-]).
    destruct (rewriteBinaryExpression_same_or_fresh _ _ _ _ _ Hrule)
      as [[-> ->]|(Hnone & callee & args & Hcall)].
    + right; left. by split.
    + right; right. exists r, callee, args. repeat split; auto.
Qed.

(** X6.  When a rewrite is computed for a node whose parent is a variable
    declaration, the initializer of the declaration becomes the rewrite;
    the name of the declaration and every other node are as before. *)
Theorem decimalifyChild_declaration_parent
    (fuel : nat) (h h' : list Node) (node p e name : nat) (init : option nat) :
  h !! p = Some (MkVariableDeclaration name init) ->
  applyRule fuel node h = Returns (Some e) h' ->
  e <> node ->
  exists h'',
    decimalifyNode fuel node (Some p) h = Returns e h''
    /\ h'' !! p = Some (MkVariableDeclaration name (Some e))
    /\ (forall r, r <> p -> h'' !! r = h' !! r)
    /\ (forall r n, r <> p -> h !! r = Some n -> h'' !! r = Some n).
Proof.
  intros Hp Hrule Hne.
  destruct (extends_applyRule _ _ _ _ _ Hrule) as [ext ->].
  pose proof (lookup_app_l_Some _ ext _ _ Hp) as Hp'.
  pose proof (lookup_lt_Some _ _ _ Hp') as Hlt.
  exists (<[p := MkVariableDeclaration name (Some e)]> (h ++ ext)).
  assert (Hattach : attach node p (Some e) (h ++ ext)
                    = Returns tt (<[p := MkVariableDeclaration name (Some e)]> (h ++ ext))).
  { unfold attach. rewrite bool_decide_eq_true_2 by assumption.
    rewrite (bind_deref _ _ _ _ Hp'). unfold store.
    by rewrite bool_decide_eq_true_2. }
  split; [apply (decimalifyNode_parent _ _ _ _ _ _ _ Hrule Hattach)|].
  split; [by apply list_lookup_insert_eq|].
  split.
  - intros r Hr. by apply list_lookup_insert_ne.
  - intros r n Hr Hn. transitivity ((h ++ ext) !! r).
    + by apply list_lookup_insert_ne.
    + by apply lookup_app_l_Some.
Qed.

Lemma decimalifyChild_declaration_parent_witness :
  exists h'',
    decimalifyNode 1 4 (Some 5) Samples.declaration = Returns 14 h''
    /\ h'' !! 5 = Some (MkVariableDeclaration 0 (Some 14)).
Proof.
  destruct (decimalifyChild_declaration_parent 1 Samples.declaration
              (Samples.declaration ++ decimalCallNodes 10 1 "plus" 3)
              4 5 14 0 (Some 4) eq_refl eq_refl) as (h'' & H1 & H2 & _);
    [discriminate|].
  exists h''. split; [exact H1|exact H2].
Defined.

(** X7.  What the walker does at a node before it descends has one of two
    outcomes.  Either it keeps the node, and then the store is exactly as
    it was: nothing was allocated and no parent was assigned to, whatever
    the kind of the parent.  Or it goes on with a call expression that did
    not exist before. *)
Theorem decimalifyNode_keeps_or_rewrites
    (fuel : nat) (node p final : nat) (h h' : list Node) :
  decimalifyNode fuel node (Some p) h = Returns final h' ->
  (final = node /\ h' = h)
  \/ (final <> node /\ h !! final = None
      /\ exists callee args, h' !! final = Some (MkCallExpression callee args)).
Proof.
  unfold decimalifyNode. intros Hrun.
  apply bind_inv in Hrun as (e & h2 & Hrun & [= <- <-]).
  apply bind_inv in Hrun as (e' & h1 & Hrule & Hrun).
  apply bind_inv in Hrun as ([] & h2' & Hattach & [= <- <-]).
  destruct (applyRule_result _ _ _ _ _ Hrule)
    as [[-> ->]|[[-> ->]|(r & callee & args & -> & Hnone & Hne & Hcall)]].
  - left. simpl in *. by injection Hattach as <-.
  - left. rewrite attach_same in Hattach. by injection Hattach as <-.
  - right. simpl. split; [exact Hne|]. split; [exact Hnone|].
    revert Hattach. unfold attach.
    rewrite bool_decide_eq_true_2 by assumption.
    unfold bind at 1, deref at 1.
    destruct (h1 !! p) as [pn|] eqn:Hp; [|discriminate].
    destruct pn; unfold ret, store;
      try (intros [= <-]; exists callee, args; exact Hcall);
      (case_bool_decide as Hlt; [|discriminate]); intros [= <-];
      (destruct (decide (p = r)) as [->|Hrp];
       [rewrite list_lookup_insert_eq by assumption; try congruence; eauto
       |rewrite list_lookup_insert_ne by assumption; eauto]).
Qed.

Lemma decimalifyNode_keeps_or_rewrites_witness :
  (4 = 4 /\ Programs.comparisonInitializer = Programs.comparisonInitializer)
  \/ (4 <> 4 /\ Programs.comparisonInitializer !! 4 = None
      /\ exists callee args,
           Programs.comparisonInitializer !! 4
           = Some (MkCallExpression callee args)).
Proof.
  apply (decimalifyNode_keeps_or_rewrites 1 4 5 4 Programs.comparisonInitializer).
  reflexivity.
Defined.

Lemma bind_throws {A B} (m : M A) (k : A -> M B) (h : list Node) (e : JsError) :
  m h = Throws e -> bind m k h = Throws e.
Proof. intros H. unfold bind. by rewrite H. Qed.

Lemma ensureFixedPoint_unsupported (fuel : nat) (h : list Node) (node : nat) (n : Node) :
  h !! node = Some n ->
  kind n <> NumericLiteral -> kind n <> BinaryExpression ->
  kind n <> CallExpression ->
  ensureFixedPoint (S fuel) node h = Throws (UnsupportedNodeKind (kind n)).
Proof.
  intros Hn Hlit Hbin Hcall. rewrite (ensureFixedPoint_unfold _ _ _ _ Hn).
  rewrite bool_decide_eq_false_2 by congruence.
  rewrite bool_decide_eq_false_2 by congruence.
  by rewrite bool_decide_eq_false_2 by congruence.
Qed.

Lemma decimalifyChild_rule_throws (fuel : nat) (h : list Node) (node p : nat)
    (l op r : nat) (e : JsError) :
  h !! node = Some (MkBinaryExpression l op r) ->
  rewriteBinaryExpression fuel node h = Throws e ->
  decimalifyChild (S fuel) node (Some p) h = Throws e.
Proof.
  intros Hnode Hrule. simpl. apply bind_throws.
  unfold decimalifyNode. apply bind_throws, bind_throws.
  unfold applyRule. rewrite (bind_deref _ _ _ _ Hnode). simpl.
  by apply bind_throws.
Qed.

(** X8.  The walker is fatal on an arithmetic expression with an operand
    the strict classifier does not accept, an identifier for one: visiting
    the expression throws [UnsupportedNodeKind] with the kind of the left
    operand, or with the kind of the right operand when the left one is a
    numeric literal.  Nothing is assigned before the exception leaves. *)
Theorem decimalifyChild_unsupported_operand
    (fuel : nat) (h : list Node) (node p l op r : nat) (tok : Node) (m : string) :
  h !! node = Some (MkBinaryExpression l op r) ->
  h !! op = Some tok ->
  (kind tok, m) ∈
    [ (SlashToken, "div"); (AsteriskToken, "times");
      (PlusToken, "plus"); (MinusToken, "minus") ] ->
  (forall ln,
     h !! l = Some ln ->
     kind ln <> NumericLiteral -> kind ln <> BinaryExpression ->
     kind ln <> CallExpression ->
     decimalifyChild (S (S fuel)) node (Some p) h
     = Throws (UnsupportedNodeKind (kind ln)))
  /\ (forall a rn,
        h !! l = Some (MkNumericLiteral a) ->
        h !! r = Some rn ->
        kind rn <> NumericLiteral -> kind rn <> BinaryExpression ->
        kind rn <> CallExpression ->
        decimalifyChild (S (S fuel)) node (Some p) h
        = Throws (UnsupportedNodeKind (kind rn))).
Proof.
  intros Hnode Hop Hkind. split.
  - intros ln Hl H1 H2 H3.
    apply (decimalifyChild_rule_throws _ _ _ _ _ _ _ _ Hnode).
    apply (rewriteBinaryExpressionWith_left_throws _ h node l op r tok m);
      try assumption.
    by apply ensureFixedPoint_unsupported.
  - intros a rn Hl Hr H1 H2 H3.
    apply (decimalifyChild_rule_throws _ _ _ _ _ _ _ _ Hnode).
    unfold rewriteBinaryExpression.
    rewrite (rewriteBinaryExpressionWith_arithmetic _ _ _ _ _ _ _ _ Hnode Hop Hkind).
    rewrite (bind_returns _ _ _ _ _ (ensureFixedPoint_literal fuel h l a Hl)).
    apply bind_throws. by apply ensureFixedPoint_unsupported.
Qed.

Lemma decimalifyChild_unsupported_operand_witness :
  decimalifyChild 2 4 (Some 5) Programs.identifierOperand
  = Throws (UnsupportedNodeKind Identifier).
Proof.
  apply (proj1 (decimalifyChild_unsupported_operand 0 Programs.identifierOperand
                  4 5 1 2 3 (MkToken PlusToken) "plus"
                  eq_refl eq_refl ltac:(set_solver))
           (MkIdentifier (JsString "x")) eq_refl); discriminate.
Defined.

(** ** The whole walk *)

Section WalkPreserves.

Variable R : list Node -> list Node -> Prop.
Hypothesis R_refl : forall h, R h h.
Hypothesis R_trans : forall h1 h2 h3, R h1 h2 -> R h2 h3 -> R h1 h3.
Hypothesis R_step :
  forall fuel node p h final h',
    decimalifyNode fuel node p h = Returns final h' -> R h h'.

Lemma visitNodes_preserves {S : Type} (cb : S -> nat -> M S) :
  (forall acc c h acc' h', cb acc c h = Returns acc' h' -> R h h') ->
  forall nodes acc h acc' h',
    visitNodes cb acc nodes h = Returns acc' h' -> R h h'.
Proof.
  intros Hcb. induction nodes as [|c rest IH]; intros acc h acc' h'; simpl.
  - intros [= _ <-]. apply R_refl.
  - intros Hrun. apply bind_inv in Hrun as (a & h1 & H1 & H2).
    eapply R_trans; [eapply Hcb, H1|eapply IH, H2].
Qed.

Lemma visitFields_preserves {S : Type} (cb : S -> nat -> M S) :
  (forall acc c h acc' h', cb acc c h = Returns acc' h' -> R h h') ->
  forall indices acc node h acc' h',
    visitFields cb acc node indices h = Returns acc' h' -> R h h'.
Proof.
  intros Hcb. induction indices as [|i rest IH]; intros acc node h acc' h'; simpl.
  - intros [= _ <-]. apply R_refl.
  - intros Hrun. apply bind_inv in Hrun as (n & h0 & H0 & Hrun).
    apply bind_inv in Hrun as (a & h1 & H1 & H2).
    unfold deref in H0. destruct (h !! node); [|discriminate].
    injection H0 as <- <-.
    eapply R_trans; [eapply visitNodes_preserves, H1; exact Hcb|eapply IH, H2].
Qed.

Lemma forEachChild_preserves {S : Type} (cb : S -> nat -> M S) :
  (forall acc c h acc' h', cb acc c h = Returns acc' h' -> R h h') ->
  forall acc node h acc' h',
    forEachChild cb acc node h = Returns acc' h' -> R h h'.
Proof.
  intros Hcb acc node h acc' h'. unfold forEachChild. intros Hrun.
  apply bind_inv in Hrun as (n & h0 & H0 & Hrun).
  unfold deref in H0. destruct (h !! node); [|discriminate].
  injection H0 as <- <-.
  eapply visitFields_preserves, Hrun. exact Hcb.
Qed.

Lemma decimalifyChild_preserves (fuel : nat) :
  forall node p h u h',
    decimalifyChild fuel node p h = Returns u h' -> R h h'.
Proof.
  induction fuel as [|fuel IH]; intros node p h u h'; [discriminate|].
  simpl. intros Hrun.
  apply bind_inv in Hrun as (final & h1 & Hnode & Hrun).
  eapply R_trans; [eapply R_step, Hnode|].
  eapply forEachChild_preserves, Hrun.
  intros acc c h2 acc' h2'. apply IH.
Qed.

End WalkPreserves.

Lemma sameButSlot_trans (n1 n2 n3 : Node) :
  sameButSlot n1 n2 -> sameButSlot n2 n3 -> sameButSlot n1 n3.
Proof.
  intros [->|[(name & i & i' & -> & ->)|(callee & a & a' & -> & ->)]]; [done|..].
  - intros [->|[(name' & j & j' & [= <- <-] & ->)|(? & ? & ? & [=] & _)]];
      right; left; eauto.
  - intros [->|[(? & ? & ? & [=] & _)|(callee' & b & b' & [= <- <-] & ->)]];
      right; right; eauto.
Qed.

Lemma frame_refl (h : list Node) : frame h h.
Proof. intros r n Hn. exists n. split; [exact Hn|by left]. Qed.

Lemma frame_trans (h1 h2 h3 : list Node) :
  frame h1 h2 -> frame h2 h3 -> frame h1 h3.
Proof.
  intros H12 H23 r n Hn.
  destruct (H12 r n Hn) as (n2 & Hn2 & Hs12).
  destruct (H23 r n2 Hn2) as (n3 & Hn3 & Hs23).
  exists n3. split; [exact Hn3|]. by eapply sameButSlot_trans.
Qed.

Lemma frame_app (h ext : list Node) : frame h (h ++ ext).
Proof.
  intros r n Hn. exists n. split; [by apply lookup_app_l_Some|by left].
Qed.

Lemma frame_attach (node p : nat) (e : option nat) (h h' : list Node) :
  attach node p e h = Returns tt h' -> frame h h'.
Proof.
  unfold attach.
  destruct e as [e|]; [|intros [= <-]; apply frame_refl].
  case_bool_decide; [|intros [= <-]; apply frame_refl].
  unfold bind, deref. destruct (h !! p) as [pn|] eqn:Hp; [|discriminate].
  destruct pn; unfold ret, store; try (intros [= <-]; apply frame_refl);
    (case_bool_decide as Hlt; [|discriminate]); intros [= <-]; intros r n Hn;
    (destruct (decide (p = r)) as [->|Hne];
     [rewrite list_lookup_insert_eq by assumption;
      rewrite Hp in Hn; injection Hn as <-;
      eexists; split; [reflexivity|]
     |rewrite list_lookup_insert_ne by assumption;
      exists n; split; [exact Hn|by left]]).
  - right; right. eauto.
  - right; left. eauto.
Qed.

Lemma frame_decimalifyNode (fuel : nat) (node : nat) (p : option nat)
    (h : list Node) (final : nat) (h' : list Node) :
  decimalifyNode fuel node p h = Returns final h' -> frame h h'.
Proof.
  unfold decimalifyNode. intros Hrun.
  apply bind_inv in Hrun as (e & h2 & Hrun & [= _ <-]).
  destruct p as [p|]; [|injection Hrun as _ <-; apply frame_refl].
  apply bind_inv in Hrun as (e' & h1 & Hrule & Hrun).
  apply bind_inv in Hrun as ([] & h2' & Hattach & [= _ <-]).
  apply extends_applyRule in Hrule as [ext ->].
  eapply frame_trans; [apply frame_app|eapply frame_attach, Hattach].
Qed.

(** X9.  The walk assigns to two kinds of slots only.  After [decimalify]
    every node that was in the store is still there with its kind; a
    variable declaration has kept its name and a call its callee; a node
    that is neither is exactly as it was.  In particular the statement
    list of the source file and the import declarations are never
    touched. *)
Theorem decimalify_only_fills_slots
    (fuel : nat) (sourceFile : nat) (h h' : list Node) :
  decimalify fuel sourceFile h = Returns tt h' ->
  forall r n,
    h !! r = Some n ->
    exists n',
      h' !! r = Some n'
      /\ kind n' = kind n
      /\ (kind n <> VariableDeclaration -> kind n <> CallExpression -> n' = n)
      /\ (forall name i, n = MkVariableDeclaration name i ->
            exists i', n' = MkVariableDeclaration name i')
      /\ (forall callee a, n = MkCallExpression callee a ->
            exists a', n' = MkCallExpression callee a').
Proof.
  intros Hrun r n Hn.
  assert (Hframe : frame h h').
  { eapply (decimalifyChild_preserves frame frame_refl frame_trans
              frame_decimalifyNode), Hrun. }
  destruct (Hframe r n Hn) as (n' & Hn' & Hs). exists n'.
  split; [exact Hn'|].
  destruct Hs as [->|[(name & i & i' & -> & ->)|(callee & a & a' & -> & ->)]].
  - repeat split; eauto.
  - repeat split; simpl; try congruence; eauto.
    intros name' j [= <- <-]. eauto.
  - repeat split; simpl; try congruence; eauto.
    intros callee' b [= <- <-]. eauto.
Qed.

Lemma decimalify_only_fills_slots_witness :
  exists h',
    decimalify 10 9 Samples.declaration = Returns tt h'
    /\ exists n',
         h' !! 5 = Some n'
         /\ exists i', n' = MkVariableDeclaration 0 i'.
Proof.
  eexists. split; [vm_compute; reflexivity|].
  destruct (decimalify_only_fills_slots 10 9 Samples.declaration _
              ltac:(vm_compute; reflexivity) 5 (MkVariableDeclaration 0 (Some 4))
              eq_refl) as (n' & H1 & _ & _ & H4 & _).
  exists n'. split; [exact H1|]. exact (H4 0 (Some 4) eq_refl).
Defined.

Lemma DefaultDecimalImport_frame (h h' : list Node) (s : nat) :
  frame h h' -> DefaultDecimalImport h s -> DefaultDecimalImport h' s.
Proof.
  intros Hframe (clause & spec & name & bindings & Hs & Hspec & Hclause & Hname).
  assert (Hsame : forall r n,
             h !! r = Some n ->
             kind n <> VariableDeclaration -> kind n <> CallExpression ->
             h' !! r = Some n).
  { intros r n Hn Hd Hc. destruct (Hframe r n Hn) as (n' & Hn' & Hs').
    destruct Hs' as [->|[(? & ? & ? & -> & _)|(? & ? & ? & -> & _)]];
      [exact Hn'|by destruct Hd|by destruct Hc]. }
  exists clause, spec, name, bindings.
  repeat split; apply Hsame; try assumption; discriminate.
Qed.

(** X10.  Whenever [loader] hands a file to the printer, that file has a
    default import of [Decimal] from ['decimal.js'] among its statements,
    whatever the walk rewrote; its statements are those of the parsed
    file, preceded by one new declaration at most. *)
Theorem loader_output_has_import
    (fuel : nat) (h h' : list Node) (sf eof sf' : nat) (statements : list nat) :
  closed h ->
  h !! sf = Some (MkSourceFile statements eof) ->
  h !! eof = Some (MkToken EndOfFileToken) ->
  loader fuel sf h = Returns sf' h' ->
  exists statements',
    h' !! sf' = Some (MkSourceFile statements' eof)
    /\ (statements' = statements
        \/ exists declaration,
             statements' = declaration :: statements /\ h !! declaration = None)
    /\ exists stmt, stmt ∈ statements' /\ DefaultDecimalImport h' stmt.
Proof.
  intros Hclosed Hsf Heof Hrun. unfold loader in Hrun.
  apply bind_inv in Hrun as (sfe & he & Himport & Hrun).
  apply bind_inv in Hrun as ([] & hw & Hwalk & [= <- <-]).
  assert (Hframe : frame he hw).
  { eapply (decimalifyChild_preserves frame frame_refl frame_trans
              frame_decimalifyNode), Hwalk. }
  assert (Hfile : forall stmts, he !! sfe = Some (MkSourceFile stmts eof) ->
                                hw !! sfe = Some (MkSourceFile stmts eof)).
  { intros stmts Hn. destruct (Hframe _ _ Hn) as (n' & Hn' & Hs).
    by destruct Hs as [->|[(? & ? & ? & [=] & _)|(? & ? & ? & [=] & _)]]. }
  pose proof (statements_answer h sf eof statements Hclosed Hsf) as Hall.
  destruct (existsb (isDecimalImport h) statements) eqn:Hfound.
  - rewrite (ensureImport_present h sf eof statements Hsf Heof Hall Hfound)
      in Himport. injection Himport as <- <-.
    exists statements. split; [by apply Hfile|]. split; [by left|].
    apply existsb_exists in Hfound as (stmt & Hin & Htest).
    exists stmt. split; [by apply list_elem_of_In|].
    apply (DefaultDecimalImport_frame h hw); [exact Hframe|].
    by apply isDecimalImport_spec.
  - rewrite (ensureImport_absent h sf eof statements Hsf Heof Hall Hfound)
      in Himport. injection Himport as <- <-.
    exists ((List.length h + 3) :: statements). split.
    { apply Hfile. rewrite lookup_app_r by lia.
      replace (List.length h + 4 - List.length h) with 4 by lia. reflexivity. }
    split.
    { right. eexists. split; [reflexivity|]. apply lookup_ge_None. lia. }
    exists (List.length h + 3). split; [set_solver|].
    eapply DefaultDecimalImport_frame; [exact Hframe|apply importNodes_import].
Qed.

Lemma loader_output_has_import_witness :
  exists sf' h' statements',
    loader 10 9 Samples.declaration = Returns sf' h'
    /\ h' !! sf' = Some (MkSourceFile statements' 8)
    /\ exists stmt, stmt ∈ statements' /\ DefaultDecimalImport h' stmt.
Proof.
  eexists _, _.
  destruct (loader_output_has_import 10 Samples.declaration _ 9 8 _ [7]
              ltac:(unfold closed; repeat constructor) eq_refl eq_refl
              ltac:(vm_compute; reflexivity))
    as (statements' & H1 & _ & H3).
  exists statements'. split; [vm_compute; reflexivity|]. split; [exact H1|exact H3].
Defined.

Lemma visitNodes_unchanged (cb : unit -> nat -> M unit) (h : list Node)
    (nodes : list nat) :
  Forall (fun c => cb tt c h = Returns tt h) nodes ->
  visitNodes cb tt nodes h = Returns tt h.
Proof.
  induction 1 as [|c rest Hc _ IH]; [reflexivity|].
  simpl. by rewrite (bind_returns _ _ _ _ _ Hc).
Qed.

Lemma visitFields_unchanged (cb : unit -> nat -> M unit) (h : list Node)
    (node : nat) (n : Node) (indices : list nat) :
  h !! node = Some n ->
  Forall (fun c => cb tt c h = Returns tt h) (concat (fields n)) ->
  visitFields cb tt node indices h = Returns tt h.
Proof.
  intros Hn Hall. induction indices as [|i rest IH]; [reflexivity|].
  simpl. rewrite (bind_deref _ _ _ _ Hn).
  rewrite (bind_returns _ _ h h tt); [exact IH|].
  apply visitNodes_unchanged.
  destruct (fields n !! i) as [l|] eqn:Hl; [|constructor].
  simpl. rewrite Forall_forall in Hall |- *. intros c Hc. apply Hall.
  apply list_elem_of_In, in_concat. exists l.
  split; apply list_elem_of_In; [by eapply list_elem_of_lookup_2|exact Hc].
Qed.

(** X11.  A subtree that holds no binary expression and no call is walked
    without any effect: the walk returns within a budget equal to the
    depth of the subtree, and the store after it is the store before it.
    Nothing is allocated and nothing is assigned, whatever the parent. *)
Theorem decimalifyChild_plain
    (depth : nat) (h : list Node) (node : nat) (p : option nat) :
  plain depth h node ->
  decimalifyChild depth node p h = Returns tt h.
Proof.
  revert node p. induction depth as [|depth IH]; intros node p; [intros []|].
  intros (n & Hn & Hbin & Hcall & Hchildren). simpl.
  assert (Hnode : decimalifyNode depth node p h = Returns node h).
  { destruct p as [p|]; [|reflexivity].
    apply (decimalifyNode_parent depth node p None h h h);
      [by apply (applyRule_no_rule depth h node n)|reflexivity]. }
  rewrite (bind_returns _ _ _ _ _ Hnode).
  unfold forEachChild. rewrite (bind_deref _ _ _ _ Hn).
  apply (visitFields_unchanged _ h node n); [exact Hn|].
  eapply Forall_impl; [exact Hchildren|]. intros c Hc. by apply IH.
Qed.

Lemma decimalifyChild_plain_witness :
  decimalifyChild 5 10 None Samples.importedOnce = Returns tt Samples.importedOnce.
Proof.
  apply (decimalifyChild_plain 5 Samples.importedOnce 10 None).
  repeat first
    [ progress simpl | reflexivity | discriminate | eexists | constructor ].
Defined.

(** ** The import check reads only *)

Lemma reads_importCallback (acc : bool) (node : nat) : reads (importCallback acc node).
Proof.
  unfold importCallback. destruct acc; [apply reads_ret|apply reads_declaresDecimalJS].
Qed.

Lemma reads_visitNodes {S : Type} (cb : S -> nat -> M S) (nodes : list nat) :
  (forall acc c, reads (cb acc c)) -> forall acc, reads (visitNodes cb acc nodes).
Proof.
  intros Hcb. induction nodes as [|c rest IH]; intros acc; simpl.
  - apply reads_ret.
  - apply reads_bind; [apply Hcb|]. intros acc'. apply IH.
Qed.

Lemma reads_visitFields {S : Type} (cb : S -> nat -> M S) (node : nat)
    (indices : list nat) :
  (forall acc c, reads (cb acc c)) ->
  forall acc, reads (visitFields cb acc node indices).
Proof.
  intros Hcb. induction indices as [|i rest IH]; intros acc; simpl.
  - apply reads_ret.
  - apply reads_bind; [apply reads_deref|]. intros n.
    apply reads_bind; [by apply reads_visitNodes|]. intros acc'. apply IH.
Qed.

Lemma reads_sourceFileHasDecimalJS (sf : nat) : reads (sourceFileHasDecimalJS sf).
Proof.
  unfold sourceFileHasDecimalJS, forEachChild.
  apply reads_bind; [apply reads_deref|]. intros n.
  apply reads_visitFields. apply reads_importCallback.
Qed.

(** X12.  [sourceFileHasDecimalJS] only reads.  It never throws; when it
    answers, the store is exactly as before; and it gives the same answer
    in any store obtained from this one by allocating more nodes. *)
Theorem sourceFileHasDecimalJS_read_only (sf : nat) (h : list Node) :
  (forall e, sourceFileHasDecimalJS sf h <> Throws e)
  /\ (forall found h',
        sourceFileHasDecimalJS sf h = Returns found h' ->
        h' = h
        /\ forall created,
             sourceFileHasDecimalJS sf (h ++ created)
             = Returns found (h ++ created)).
Proof.
  destruct (reads_sourceFileHasDecimalJS sf h) as [Hstuck|[b Hb]].
  - split; [by rewrite Hstuck|]. intros found h' Hrun. by rewrite Hstuck in Hrun.
  - pose proof (reads_here _ _ _ Hb) as Hhere.
    split; [by rewrite Hhere|]. intros found h' Hrun.
    rewrite Hhere in Hrun. injection Hrun as <- <-.
    split; [reflexivity|exact Hb].
Qed.

Lemma sourceFileHasDecimalJS_read_only_witness :
  Samples.importedOnce = Samples.importedOnce
  /\ forall created,
       sourceFileHasDecimalJS 10 (Samples.importedOnce ++ created)
       = Returns true (Samples.importedOnce ++ created).
Proof.
  apply (proj2 (sourceFileHasDecimalJS_read_only 10 Samples.importedOnce)).
  reflexivity.
Defined.

(** ** The classifier terminates within the depth of the expression *)

Lemma within_lookup (depth : nat) (h : list Node) (r : nat) :
  within depth h r -> is_Some (h !! r).
Proof. destruct depth; [intros []|]. intros (n & Hn & _). eauto. Qed.

Lemma within_app (depth : nat) (h ext : list Node) (r : nat) :
  within depth h r -> within depth (h ++ ext) r.
Proof.
  revert r. induction depth as [|depth IH]; intros r; [intros []|].
  intros (n & Hn & H1 & H2 & Hchildren). exists n.
  split; [by apply lookup_app_l_Some|]. do 2 (split; [assumption|]).
  eapply Forall_impl; [exact Hchildren|]. intros c. apply IH.
Qed.

(** X13.  On an expression whose subtree is in the store with depth at
    most [d], the strict classifier comes to an end within [d] levels of
    recursion: it returns a node or throws [UnsupportedNodeKind].  It never
    needs more budget and never reads a missing node. *)
Theorem ensureFixedPoint_terminates
    (depth : nat) (h : list Node) (node : nat) :
  within depth h node ->
  (exists r h', ensureFixedPoint depth node h = Returns r h')
  \/ (exists k, ensureFixedPoint depth node h = Throws (UnsupportedNodeKind k)).
Proof.
  revert node h. induction depth as [|depth IH]; intros node h; [intros []|].
  intros (n & Hn & Htok1 & Htok2 & Hchildren).
  rewrite (ensureFixedPoint_unfold _ _ _ _ Hn).
  case_bool_decide as Hlit; [left; eauto|].
  case_bool_decide as Hbin; [|case_bool_decide as Hcall; [|right; eauto]].
  - (* binary expression *)
    destruct n; try discriminate; [simpl in Hbin; congruence|].
    simpl in Hchildren.
    apply Forall_cons in Hchildren as [Hl Hchildren].
    apply Forall_cons in Hchildren as [Hop Hchildren].
    apply Forall_cons in Hchildren as [Hr _].
    destruct (within_lookup _ _ _ Hop) as [tok Htok].
    unfold rewriteBinaryExpressionWith.
    rewrite (bind_deref _ _ _ _ Hn), (bind_deref _ _ _ _ Htok).
    destruct (operatorMethod (kind tok)) as [m|]; [|left; eauto].
    destruct (IH _ _ Hl) as [(l' & h1 & Hleft)|[k Hleft]];
      [|right; exists k; by apply bind_throws].
    rewrite (bind_returns _ _ _ _ _ Hleft).
    destruct (extends_ensureFixedPoint _ _ _ _ _ Hleft) as [ext ->].
    destruct (IH _ _ (within_app _ _ ext _ Hr)) as [(r' & h2 & Hright)|[k Hright]];
      [|right; exists k; by apply bind_throws].
    rewrite (bind_returns _ _ _ _ _ Hright), createDecimalCall_returns.
    left; eauto.
  - (* call *)
    destruct n; try discriminate; [simpl in Hcall; congruence|].
    simpl in Hchildren. apply Forall_cons in Hchildren as [Hcallee _].
    destruct (rewriteCallExpression_cases h node _ _ Hn)
      as [Hstuck|[Hsame|(m & _ & Hnew)]]; [|left; eauto|left; eauto].
    exfalso. revert Hstuck. unfold rewriteCallExpression.
    rewrite (bind_deref _ _ _ _ Hn).
    destruct depth as [|depth']; [destruct Hcallee|].
    destruct Hcallee as (c & Hc & _ & _ & Hsub).
    rewrite (bind_deref _ _ _ _ Hc).
    destruct c as [| | | |pe pn| | | | | | | | | | | | | | |]; try discriminate.
    simpl in Hsub. apply Forall_cons in Hsub as [Hpe Hsub].
    apply Forall_cons in Hsub as [Hpn _].
    destruct (within_lookup _ _ _ Hpe) as [e He].
    destruct (within_lookup _ _ _ Hpn) as [nm Hnm].
    rewrite (bind_deref _ _ _ _ He).
    case_bool_decide; [|discriminate].
    rewrite (bind_deref _ _ _ _ Hnm). cbv zeta.
    destruct (truthy _); [|discriminate].
    unfold createIdentifier, createPropertyAccess, createCall.
    rewrite !bind_alloc. discriminate.
Qed.

Lemma ensureFixedPoint_terminates_witness :
  (exists r h', ensureFixedPoint 3 6 Samples.nested = Returns r h')
  \/ (exists k, ensureFixedPoint 3 6 Samples.nested = Throws (UnsupportedNodeKind k)).
Proof.
  apply (ensureFixedPoint_terminates 3 Samples.nested 6).
  repeat first
    [ progress simpl | reflexivity | discriminate | eexists | constructor ].
Defined.

(** ** No dangling reference is ever created *)

Lemma closed_app (h created : list Node) :
  closed h ->
  Forall (fun n =>
            Forall (fun c => c < List.length h + List.length created)
              (concat (fields n))) created ->
  closed (h ++ created).
Proof.
  unfold closed. intros Hh Hnew. rewrite length_app. apply Forall_app. split.
  - eapply Forall_impl; [exact Hh|]. intros n Hn.
    eapply Forall_impl; [exact Hn|]. simpl. intros c Hc. lia.
  - exact Hnew.
Qed.

Lemma closed_insert (h : list Node) (p : nat) (n : Node) :
  closed h ->
  Forall (fun c => c < List.length h) (concat (fields n)) ->
  closed (<[p := n]> h).
Proof.
  unfold closed. intros Hh Hn. rewrite length_insert.
  destruct (decide (p < List.length h)) as [Hlt|Hge].
  - by apply Forall_insert.
  - by rewrite list_insert_ge by lia.
Qed.

Lemma closed_children (h : list Node) (r : nat) (n : Node) :
  closed h -> h !! r = Some n ->
  Forall (fun c => c < List.length h) (concat (fields n)).
Proof.
  unfold closed. intros Hclosed Hr. rewrite Forall_forall in Hclosed.
  apply Hclosed. by eapply list_elem_of_lookup_2.
Qed.

Lemma closed_decimalCallNodes (h : list Node) (l r : nat) (m : string) :
  closed h -> l < List.length h -> r < List.length h ->
  closed (h ++ decimalCallNodes (List.length h) l m r).
Proof.
  intros Hclosed Hl Hr. apply closed_app; [exact Hclosed|].
  unfold decimalCallNodes. simpl.
  repeat (constructor; simpl); lia.
Qed.

Lemma closed_staticCallNodes (h : list Node) (m : JsValue) (args : list nat) :
  closed h -> Forall (fun c => c < List.length h) args ->
  closed (h ++ staticCallNodes (List.length h) m args).
Proof.
  intros Hclosed Hargs. apply closed_app; [exact Hclosed|].
  unfold staticCallNodes. simpl.
  repeat (constructor; simpl); try lia.
  rewrite app_nil_r. eapply Forall_impl; [exact Hargs|]. simpl. intros c Hc. lia.
Qed.

Lemma closed_ensureFixedPoint (fuel : nat) :
  forall (node r : nat) (h h' : list Node),
    closed h ->
    ensureFixedPoint fuel node h = Returns r h' ->
    closed h' /\ r < List.length h'.
Proof.
  induction fuel as [|fuel IH]; intros node r h h' Hclosed; [discriminate|].
  destruct (h !! node) as [n|] eqn:Hnode;
    [|simpl; by rewrite (bind_deref_None _ _ _ Hnode)].
  pose proof (lookup_lt_Some _ _ _ Hnode) as Hlt.
  rewrite (ensureFixedPoint_unfold _ _ _ _ Hnode).
  case_bool_decide as Hlit; [|case_bool_decide as Hbin; [|case_bool_decide as Hcall]].
  - intros [= <- <-]. by split.
  - unfold rewriteBinaryExpressionWith.
    rewrite (bind_deref _ _ _ _ Hnode).
    destruct n; try discriminate.
    destruct (h !! operatorToken) as [tok|] eqn:Hop;
      [rewrite (bind_deref _ _ _ _ Hop)
      |by rewrite (bind_deref_None _ _ _ Hop)].
    destruct (operatorMethod (kind tok)) as [m|];
      [|intros [= <- <-]; by split].
    intros Hrun.
    apply bind_inv in Hrun as (l' & h1 & Hl & Hrun).
    apply bind_inv in Hrun as (r' & h2 & Hr & Hrun).
    destruct (IH _ _ _ _ Hclosed Hl) as [Hclosed1 Hl'].
    destruct (IH _ _ _ _ Hclosed1 Hr) as [Hclosed2 Hr'].
    apply extends_ensureFixedPoint in Hr as [ext ->].
    rewrite createDecimalCall_returns in Hrun. injection Hrun as <- <-.
    split.
    + apply closed_decimalCallNodes; try assumption.
      rewrite length_app. lia.
    + rewrite !length_app. simpl. lia.
  - intros Hrun.
    destruct n;
      try (revert Hrun; unfold rewriteCallExpression;
           rewrite (bind_deref _ _ _ _ Hnode); discriminate).
    destruct (rewriteCallExpression_cases h node _ _ Hnode)
      as [H|[H|(m & _ & H)]]; rewrite H in Hrun; try discriminate;
      injection Hrun as <- <-.
    + by split.
    + split.
      * apply closed_staticCallNodes; [exact Hclosed|].
        pose proof (closed_children _ _ _ Hclosed Hnode) as Hch.
        simpl in Hch. rewrite app_nil_r in Hch.
        by apply Forall_cons in Hch as [_ Hch].
      * rewrite length_app. simpl. lia.
  - discriminate.
Qed.

Lemma closed_applyRule (fuel : nat) (node : nat) (e : option nat)
    (h h' : list Node) :
  closed h ->
  applyRule fuel node h = Returns e h' ->
  closed h' /\ forall r, e = Some r -> r < List.length h'.
Proof.
  intros Hclosed. unfold applyRule.
  destruct (h !! node) as [n|] eqn:Hnode;
    [rewrite (bind_deref _ _ _ _ Hnode)|by rewrite (bind_deref_None _ _ _ Hnode)].
  destruct (kind n) eqn:Hkind;
    try (intros [= <- <-]; split; [assumption|discriminate]).
  - intros Hrun. apply bind_inv in Hrun as (r & h1 & Hrule & [= <- <-]).
    destruct n; try discriminate;
      try (revert Hrule; unfold rewriteCallExpression;
           rewrite (bind_deref _ _ _ _ Hnode); discriminate).
    rewrite <- (ensureFixedPoint_call 0 _ _ _ _ Hnode) in Hrule.
    destruct (closed_ensureFixedPoint _ _ _ _ _ Hclosed Hrule) as [H1 H2].
    split; [exact H1|]. by intros r' [= <-].
  - intros Hrun. apply bind_inv in Hrun as (r & h1 & Hrule & [= <- <-]).
    destruct n;
      try (revert Hrule; unfold rewriteBinaryExpression, rewriteBinaryExpressionWith;
           rewrite (bind_deref _ _ _ _ Hnode); discriminate).
    rewrite <- (ensureFixedPoint_binary _ _ _ _ _ _ Hnode) in Hrule.
    destruct (closed_ensureFixedPoint _ _ _ _ _ Hclosed Hrule) as [H1 H2].
    split; [exact H1|]. by intros r' [= <-].
Qed.

Lemma closed_attach (node p : nat) (e : option nat) (h h' : list Node) :
  closed h ->
  (forall r, e = Some r -> r < List.length h) ->
  attach node p e h = Returns tt h' ->
  closed h'.
Proof.
  intros Hclosed He. unfold attach.
  destruct e as [e|]; [|by intros [= <-]].
  specialize (He e eq_refl).
  case_bool_decide; [|by intros [= <-]].
  unfold bind, deref. destruct (h !! p) as [pn|] eqn:Hp; [|discriminate].
  pose proof (closed_children _ _ _ Hclosed Hp) as Hch.
  destruct pn; unfold ret, store; try (by intros [= <-]);
    (case_bool_decide; [|discriminate]); intros [= <-];
    apply closed_insert; try assumption; simpl in *.
  - apply Forall_cons in Hch as [Hcallee _]. repeat constructor; assumption.
  - apply Forall_cons in Hch as [Hname _]. repeat constructor; assumption.
Qed.

Lemma closed_decimalifyNode (fuel : nat) (node : nat) (p : option nat)
    (h : list Node) (final : nat) (h' : list Node) :
  decimalifyNode fuel node p h = Returns final h' ->
  closed h -> closed h'.
Proof.
  unfold decimalifyNode. intros Hrun Hclosed.
  apply bind_inv in Hrun as (e & h2 & Hrun & [= _ <-]).
  destruct p as [p|]; [|by injection Hrun as _ <-].
  apply bind_inv in Hrun as (e' & h1 & Hrule & Hrun).
  apply bind_inv in Hrun as ([] & h2' & Hattach & [= _ <-]).
  destruct (closed_applyRule _ _ _ _ _ Hclosed Hrule) as [H1 H2].
  by eapply closed_attach.
Qed.

Lemma closed_ensureImport (sf sf' : nat) (h h' : list Node) :
  closed h ->
  ensureImport sf h = Returns sf' h' ->
  closed h' /\ sf' < List.length h'.
Proof.
  intros Hclosed. unfold ensureImport. intros Hrun.
  apply bind_inv in Hrun as (found & h0 & Hcheck & Hrun).
  destruct (h !! sf) as [n|] eqn:Hsf;
    [|revert Hcheck; unfold sourceFileHasDecimalJS, forEachChild;
      by rewrite (bind_deref_None _ _ _ Hsf)].
  pose proof (lookup_lt_Some _ _ _ Hsf) as Hlt.
  destruct (reads_sourceFileHasDecimalJS sf h) as [Hstuck|[b Hb]];
    [by rewrite Hstuck in Hcheck|].
  rewrite (reads_here _ _ _ Hb) in Hcheck. injection Hcheck as <- <-.
  destruct b; simpl in Hrun; [injection Hrun as <- <-; by split|].
  rewrite (bind_deref _ _ _ _ Hsf) in Hrun.
  destruct n; try discriminate.
  pose proof (closed_children _ _ _ Hclosed Hsf) as Hch. simpl in Hch.
  revert Hrun.
  unfold createIdentifier, createImportClause, createLiteral,
    createImportDeclaration, updateSourceFileNode.
  rewrite !bind_alloc.
  rewrite (bind_deref sf (MkSourceFile statements endOfFileToken));
    [|do 4 apply lookup_app_l_Some; exact Hsf].
  unfold alloc. rewrite <- !app_assoc. simpl. rewrite !length_app. simpl.
  intros [= <- <-]. split; [|rewrite length_app; simpl; lia].
  apply closed_app; [exact Hclosed|]. simpl.
  repeat (constructor; simpl); try lia.
  eapply Forall_impl; [exact Hch|]. simpl. intros c Hc. lia.
Qed.

(** X14.  References never dangle.  In a store where every reference held
    by a node is allocated, the strict classifier and the import step leave
    such a store and return an allocated node, and so does [loader]: the
    file handed to the printer holds no reference to a missing node. *)
Theorem closed_is_kept
    (fuel : nat) (node r : nat) (h h' : list Node) :
  closed h ->
  ensureFixedPoint fuel node h = Returns r h'
  \/ ensureImport node h = Returns r h'
  \/ loader fuel node h = Returns r h' ->
  closed h' /\ r < List.length h'.
Proof.
  intros Hclosed [Hrun|[Hrun|Hrun]].
  - by eapply closed_ensureFixedPoint.
  - by eapply closed_ensureImport.
  - unfold loader in Hrun.
    apply bind_inv in Hrun as (sfe & he & Himport & Hrun).
    apply bind_inv in Hrun as ([] & hw & Hwalk & [= <- <-]).
    destruct (closed_ensureImport _ _ _ _ Hclosed Himport) as [Hce Hlt].
    assert (Hkeep : (closed he -> closed hw) /\ List.length he <= List.length hw).
    { eapply (decimalifyChild_preserves
                (fun h1 h2 => (closed h1 -> closed h2)
                              /\ List.length h1 <= List.length h2)), Hwalk.
      - intros h1. split; [tauto|lia].
      - intros h1 h2 h3 [H12 L12] [H23 L23]. split; [tauto|lia].
      - intros fuel' node' p h1 final h2 Hnode. split.
        + by eapply closed_decimalifyNode.
        + pose proof (frame_decimalifyNode _ _ _ _ _ _ Hnode) as Hframe.
          destruct (decide (List.length h1 <= List.length h2)) as [|Hgt];
            [assumption|exfalso].
          destruct (lookup_lt_is_Some_2 h1 (List.length h2)) as [n Hn]; [lia|].
          destruct (Hframe _ _ Hn) as (n' & Hn' & _).
          apply lookup_lt_Some in Hn'. lia. }
    destruct Hkeep as [Hcw Hlen]. split; [by apply Hcw|lia].
Qed.

Lemma closed_is_kept_witness :
  exists sf' h',
    loader 10 9 Samples.declaration = Returns sf' h'
    /\ closed h' /\ sf' < List.length h'.
Proof.
  eexists _, _. split; [vm_compute; reflexivity|].
  apply (closed_is_kept 10 9 _ Samples.declaration);
    [unfold closed; repeat constructor|].
  right; right. vm_compute; reflexivity.
Defined.

(** * The older walker of [part_000] *)

Lemma Big_extends_rewriteBinaryExpressionWith
    (classify : nat -> M (option nat)) (node : nat) :
  (forall r, extends (classify r)) ->
  extends (Big.rewriteBinaryExpressionWith classify node).
Proof.
  intros Hc. unfold Big.rewriteBinaryExpressionWith.
  apply extends_bind; [apply extends_deref|]. intros n.
  destruct n; try (apply extends_fail; discriminate).
  apply extends_bind; [apply extends_deref|]. intros tok.
  destruct (operatorMethod (kind tok)); [|apply extends_ret].
  apply extends_bind; [apply Hc|]. intros l'.
  apply extends_bind; [apply Hc|]. intros r'.
  destruct l' as [l'|], r' as [r'|]; try (apply extends_fail; discriminate).
  unfold createIdentifier, createNew, createPropertyAccess, createCall.
  eauto 12 with extends.
Qed.

Lemma Big_extends_ensureBig (fuel : nat) (node : nat) :
  extends (Big.ensureBig fuel node).
Proof.
  revert node. induction fuel as [|fuel IH]; intros node.
  - apply extends_fail. discriminate.
  - simpl. apply extends_bind; [apply extends_deref|]. intros n.
    case_bool_decide; [apply extends_ret|].
    case_bool_decide; [by apply Big_extends_rewriteBinaryExpressionWith|].
    apply extends_fail. discriminate.
Qed.

(** X15.  The rule of [part_000] on numeric literal operands: for an
    operator among [/ * + -] it returns a new call that reads
    [new Big(a).method(b)] over the literal nodes themselves, with the same
    method names as the later rule. *)
Theorem Big_rewriteBinaryExpression_literals
    (fuel : nat) (h : list Node) (node l op r : nat) (tok : Node)
    (method a b : string) :
  h !! node = Some (MkBinaryExpression l op r) ->
  h !! op = Some tok ->
  (kind tok, method) ∈
    [ (SlashToken, "div"); (AsteriskToken, "times");
      (PlusToken, "plus"); (MinusToken, "minus") ] ->
  h !! l = Some (MkNumericLiteral a) ->
  h !! r = Some (MkNumericLiteral b) ->
  let base := List.length h in
  Big.rewriteBinaryExpression (S fuel) node h
  = Returns (Some (base + 4))
      (h ++ [ MkIdentifier (JsString "Big");
              MkNewExpression base (Some [l]);
              MkIdentifier (JsString method);
              MkPropertyAccessExpression (base + 1) (base + 2);
              MkCallExpression (base + 3) [r] ]).
Proof.
  intros Hnode Hop Hkind Hl Hr base. apply operatorMethod_Some in Hkind.
  unfold Big.rewriteBinaryExpression, Big.rewriteBinaryExpressionWith.
  rewrite (bind_deref _ _ _ _ Hnode), (bind_deref _ _ _ _ Hop), Hkind.
  assert (Hlit : forall x t, h !! x = Some (MkNumericLiteral t) ->
                 Big.ensureBig (S fuel) x h = Returns (Some x) h).
  { intros x t Hx. simpl. by rewrite (bind_deref _ _ _ _ Hx). }
  rewrite (bind_returns _ _ _ _ _ (Hlit _ _ Hl)).
  rewrite (bind_returns _ _ _ _ _ (Hlit _ _ Hr)).
  unfold createIdentifier, createNew, createPropertyAccess, createCall.
  rewrite !bind_alloc. unfold ret.
  rewrite <- !app_assoc. simpl. rewrite !length_app. simpl.
  subst base. repeat f_equal; lia.
Qed.

Lemma Big_rewriteBinaryExpression_literals_witness :
  Big.rewriteBinaryExpression 1 3 Samples.division
  = Returns (Some 8)
      (Samples.division ++
         [ MkIdentifier (JsString "Big"); MkNewExpression 4 (Some [0]);
           MkIdentifier (JsString "div"); MkPropertyAccessExpression 5 6;
           MkCallExpression 7 [2] ]).
Proof.
  apply (Big_rewriteBinaryExpression_literals 0 Samples.division 3 0 1 2
           (MkToken SlashToken) "div" "7" "2");
    [reflexivity|reflexivity|set_solver|reflexivity|reflexivity].
Defined.

(** X16.  In [part_000] an arithmetic expression whose left operand is
    neither a numeric literal nor a binary expression makes the rule throw
    the error of line 8; nothing is built.  A call operand is one: the
    older classifier has no case for calls.  The message of the error ends
    in the text of the node object, which is the same for every node, so
    the error does not tell which operand was refused. *)
Theorem Big_rewriteBinaryExpression_operand_throws
    (fuel : nat) (h : list Node) (node l op r : nat) (tok ln : Node)
    (method : string) :
  h !! node = Some (MkBinaryExpression l op r) ->
  h !! op = Some tok ->
  (kind tok, method) ∈
    [ (SlashToken, "div"); (AsteriskToken, "times");
      (PlusToken, "plus"); (MinusToken, "minus") ] ->
  h !! l = Some ln ->
  kind ln <> NumericLiteral ->
  kind ln <> BinaryExpression ->
  Big.rewriteBinaryExpression (S fuel) node h = Throws UnknownNode.
Proof.
  intros Hnode Hop Hkind Hl Hlit Hbin. apply operatorMethod_Some in Hkind.
  unfold Big.rewriteBinaryExpression, Big.rewriteBinaryExpressionWith.
  rewrite (bind_deref _ _ _ _ Hnode), (bind_deref _ _ _ _ Hop), Hkind.
  apply bind_throws. simpl. rewrite (bind_deref _ _ _ _ Hl).
  rewrite bool_decide_eq_false_2 by congruence.
  by rewrite bool_decide_eq_false_2 by congruence.
Qed.

Lemma Big_rewriteBinaryExpression_operand_throws_witness :
  Big.rewriteBinaryExpression 1 4 Programs.identifierOperand
  = Throws UnknownNode.
Proof.
  apply (Big_rewriteBinaryExpression_operand_throws 0 Programs.identifierOperand
           4 1 2 3 (MkToken PlusToken) (MkIdentifier (JsString "x")) "plus");
    [reflexivity|reflexivity|set_solver|reflexivity|discriminate|discriminate].
Defined.

(** X17.  The older walker attaches a rewrite in one place only.  When the
    parent of the rewritten binary expression is a variable declaration,
    its initializer becomes the rewrite and its name is kept; under any
    other parent, a call included, no existing node is assigned to. *)
Theorem Big_bigifyNode_attaches_to_declarations
    (fuel : nat) (h h' : list Node) (node p e : nat) (n : Node) :
  h !! node = Some n ->
  kind n = BinaryExpression ->
  Big.rewriteBinaryExpression fuel node h = Returns (Some e) h' ->
  (forall name init,
     h !! p = Some (MkVariableDeclaration name init) ->
     Big.bigifyNode fuel node (Some p) h
     = Returns tt (<[p := MkVariableDeclaration name (Some e)]> h'))
  /\ (forall pn,
        h !! p = Some pn -> kind pn <> VariableDeclaration ->
        Big.bigifyNode fuel node (Some p) h = Returns tt h'
        /\ forall i x, h !! i = Some x -> h' !! i = Some x).
Proof.
  intros Hnode Hkind Hrule.
  destruct (Big_extends_rewriteBinaryExpressionWith _ node
              (Big_extends_ensureBig fuel) _ _ _ Hrule) as [ext ->].
  assert (Hstep : forall k : option nat -> M unit,
             (do n0 <- deref node;
              match kind n0 with
              | BinaryExpression =>
                  do expression <- Big.rewriteBinaryExpression fuel node;
                  k expression
              | _ => ret tt
              end) h = k (Some e) (h ++ ext)).
  { intros k. rewrite (bind_deref _ _ _ _ Hnode), Hkind.
    by rewrite (bind_returns _ _ _ _ _ Hrule). }
  split.
  - intros name init Hp. unfold Big.bigifyNode. rewrite Hstep.
    rewrite (bind_deref _ _ _ _ (lookup_app_l_Some _ ext _ _ Hp)).
    unfold store. rewrite bool_decide_eq_true_2; [reflexivity|].
    rewrite length_app. apply lookup_lt_Some in Hp. lia.
  - intros pn Hp Hdecl. split; [|intros i x; apply lookup_app_l_Some].
    unfold Big.bigifyNode. rewrite Hstep.
    rewrite (bind_deref _ _ _ _ (lookup_app_l_Some _ ext _ _ Hp)).
    destruct pn; simpl in *; try reflexivity; congruence.
Qed.

Lemma Big_bigifyNode_attaches_to_declarations_witness :
  Big.bigifyNode 1 4 (Some 5) Samples.declaration
  = Returns tt
      (<[5 := MkVariableDeclaration 0 (Some 14)]>
         (Samples.declaration ++
            [ MkIdentifier (JsString "Big"); MkNewExpression 10 (Some [1]);
              MkIdentifier (JsString "plus"); MkPropertyAccessExpression 11 12;
              MkCallExpression 13 [3] ])).
Proof.
  apply (proj1 (Big_bigifyNode_attaches_to_declarations 1 Samples.declaration _
                  4 5 14 (MkBinaryExpression 1 2 3) eq_refl eq_refl eq_refl)
           0 (Some 4) eq_refl).
Defined.

(** * The whole visit of a rewritten expression *)

Lemma plain_mono (depth : nat) (h : list Node) (r : nat) :
  plain depth h r -> plain (S depth) h r.
Proof.
  revert r. induction depth as [|depth IH]; intros r; [intros []|].
  intros (n & Hn & H1 & H2 & Hchildren). exists n.
  do 3 (split; [assumption|]).
  eapply Forall_impl; [exact Hchildren|]. intros c. apply IH.
Qed.

Lemma plain_le (d d' : nat) (h : list Node) (r : nat) :
  d <= d' -> plain d h r -> plain d' h r.
Proof. induction 1 as [|d' Hle IH]; [done|]. intros Hp. by apply plain_mono, IH. Qed.

Lemma plain_leaf (depth : nat) (h : list Node) (r : nat) (n : Node) :
  h !! r = Some n -> fields n = [] ->
  kind n <> BinaryExpression -> kind n <> CallExpression ->
  plain (S depth) h r.
Proof.
  intros Hn Hf H1 H2. exists n. do 3 (split; [assumption|]).
  rewrite Hf. constructor.
Qed.

Lemma attach_attached (node p e : nat) (pn : Node) (h : list Node) :
  h !! p = Some pn -> e <> node ->
  attach node p (Some e) h = Returns tt (attached p pn e h).
Proof.
  intros Hp Hne. unfold attach. rewrite bool_decide_eq_true_2 by assumption.
  rewrite (bind_deref _ _ _ _ Hp). pose proof (lookup_lt_Some _ _ _ Hp).
  destruct pn; simpl; try reflexivity; unfold store;
    by rewrite bool_decide_eq_true_2.
Qed.

Lemma attached_lookup_ne (p i e : nat) (pn : Node) (h : list Node) :
  i <> p -> attached p pn e h !! i = h !! i.
Proof.
  intros Hne. destruct pn; simpl; try reflexivity;
    by apply list_lookup_insert_ne.
Qed.

Lemma attached_lookup_other (p i e : nat) (pn x : Node) (h : list Node) :
  h !! p = Some pn -> h !! i = Some x ->
  kind x <> VariableDeclaration -> kind x <> CallExpression ->
  attached p pn e h !! i = Some x.
Proof.
  intros Hp Hi Hd Hc. destruct (decide (i = p)) as [->|Hne].
  - rewrite Hp in Hi. injection Hi as ->.
    destruct x; simpl in *; congruence.
  - by rewrite attached_lookup_ne.
Qed.

Lemma decimalifyChild_S (fuel : nat) (node : nat) (p : option nat) (h : list Node) :
  decimalifyChild (S fuel) node p h
  = (do final <- decimalifyNode fuel node p;
     forEachChild (fun _ child => decimalifyChild fuel child (Some final)) tt final) h.
Proof. reflexivity. Qed.

Lemma visit_arithmetic_literals
    (fuel : nat) (h : list Node) (node p l op r : nat) (tok pn : Node)
    (method a b : string) :
  h !! node = Some (MkBinaryExpression l op r) ->
  h !! op = Some tok ->
  (kind tok, method) ∈
    [ (SlashToken, "div"); (AsteriskToken, "times");
      (PlusToken, "plus"); (MinusToken, "minus") ] ->
  h !! l = Some (MkNumericLiteral a) ->
  h !! r = Some (MkNumericLiteral b) ->
  h !! p = Some pn ->
  let base := List.length h in
  decimalifyChild (S (S (S (S fuel)))) node (Some p) h
  = Returns tt
      (attached p pn (base + 4) (h ++ decimalCallNodes base l method r)).
Proof.
  intros Hnode Hop Hkind Hl Hr Hp base.
  set (h1 := h ++ decimalCallNodes base l method r).
  set (F := S (S (S fuel))).
  pose proof (lookup_lt_Some _ _ _ Hnode) as Hnlt.
  pose proof (lookup_lt_Some _ _ _ Hp) as Hplt.
  assert (Hrule : applyRule F node h = Returns (Some (base + 4)) h1).
  { unfold applyRule, F. rewrite (bind_deref _ _ _ _ Hnode). cbn [kind].
    unfold rewriteBinaryExpression.
    rewrite (bind_returns _ _ _ _ _
               (rewriteBinaryExpressionWith_returns _ h h h node l op r l r tok
                  method Hnode Hop Hkind
                  (ensureFixedPoint_literal _ _ _ _ Hl)
                  (ensureFixedPoint_literal _ _ _ _ Hr))).
    reflexivity. }
  assert (Hp1 : h1 !! p = Some pn) by (by apply lookup_app_l_Some).
  assert (Hne : base + 4 <> node) by (subst base; lia).
  pose proof (attach_attached node p (base + 4) pn h1 Hp1 Hne) as Hattach.
  set (h2 := attached p pn (base + 4) h1) in *.
  pose proof (decimalifyNode_parent _ _ _ _ _ _ _ Hrule Hattach) as Hstep.
  simpl in Hstep.
  change (decimalifyChild (S F) node (Some p) h = Returns tt h2).
  rewrite decimalifyChild_S, (bind_returns _ _ _ _ _ Hstep).
  destruct (lookup_decimalCallNodes h l r method)
    as (Hdecimal & Hconstruct & Hmethod & Haccess & Hcall).
  fold base in Hdecimal, Hconstruct, Hmethod, Haccess, Hcall.
  fold h1 in Hdecimal, Hconstruct, Hmethod, Haccess, Hcall.
  assert (Hnew : forall i, base <= i -> h2 !! i = h1 !! i).
  { intros i Hi. apply attached_lookup_ne. subst base. lia. }
  assert (Hlit : forall i t, h !! i = Some (MkNumericLiteral t) ->
                 h2 !! i = Some (MkNumericLiteral t)).
  { intros i t Hi.
    apply (attached_lookup_other p i _ pn _ h1 Hp1);
      [by apply lookup_app_l_Some|discriminate|discriminate]. }
  assert (Hleaf : forall d i x, h2 !! i = Some x -> fields x = [] ->
                  kind x <> BinaryExpression -> kind x <> CallExpression ->
                  plain (S d) h2 i) by (intros; by eapply plain_leaf).
  assert (Haccess_plain : plain F h2 (base + 3)).
  { apply (plain_le 3); [subst F; lia|].
    exists (MkPropertyAccessExpression (base + 1) (base + 2)).
    split; [by rewrite Hnew by lia|]. do 2 (split; [discriminate|]).
    cbn [fields concat app]. repeat constructor.
    - exists (MkNewExpression base (Some [l])).
      split; [by rewrite Hnew by lia|]. do 2 (split; [discriminate|]).
      cbn [fields concat app default]. repeat constructor.
      + eapply (Hleaf 0);
          [by rewrite Hnew by lia|reflexivity|discriminate|discriminate].
      + eapply (Hleaf 0); [by eapply Hlit|reflexivity|discriminate|discriminate].
    - eapply (Hleaf 1);
        [by rewrite Hnew by lia|reflexivity|discriminate|discriminate]. }
  assert (Hright_plain : plain F h2 r).
  { eapply Hleaf; [by eapply Hlit|reflexivity|discriminate|discriminate]. }
  assert (Hfinal : h2 !! (base + 4) = Some (MkCallExpression (base + 3) [r]))
    by (by rewrite Hnew by lia).
  unfold forEachChild. rewrite (bind_deref _ _ _ _ Hfinal).
  apply (visitFields_unchanged _ h2 (base + 4) _ _ Hfinal).
  cbn [fields concat app].
  constructor; [by apply decimalifyChild_plain|].
  constructor; [by apply decimalifyChild_plain|constructor].
Qed.

(** X18.  The whole visit of [a op b], with numeric literals [a] and [b]
    and [op] among [/ * + -], descent included: the five nodes of
    [new Decimal(a).method(b)] are allocated, the rewrite is offered to the
    parent (the initializer of a declaration, the only argument of a call,
    nothing for another parent), and the descent into the rewrite changes
    nothing more. *)
Theorem decimalifyChild_arithmetic_literals
    (fuel : nat) (h : list Node) (node p l op r : nat) (tok pn : Node)
    (method a b : string) :
  h !! node = Some (MkBinaryExpression l op r) ->
  h !! op = Some tok ->
  (kind tok, method) ∈
    [ (SlashToken, "div"); (AsteriskToken, "times");
      (PlusToken, "plus"); (MinusToken, "minus") ] ->
  h !! l = Some (MkNumericLiteral a) ->
  h !! r = Some (MkNumericLiteral b) ->
  h !! p = Some pn ->
  let base := List.length h in
  let h' := attached p pn (base + 4) (h ++ decimalCallNodes base l method r) in
  decimalifyChild (S (S (S (S fuel)))) node (Some p) h = Returns tt h'
  /\ treeOf 4 h' (base + 4)
     = Some (decimalCall (TNumericLiteral a) method (TNumericLiteral b))
  /\ (forall name init,
        pn = MkVariableDeclaration name init ->
        h' !! p = Some (MkVariableDeclaration name (Some (base + 4))))
  /\ (forall callee args,
        pn = MkCallExpression callee args ->
        h' !! p = Some (MkCallExpression callee [base + 4]))
  /\ (kind pn <> VariableDeclaration -> kind pn <> CallExpression ->
      h' !! p = Some pn)
  /\ (forall i x, i <> p -> h !! i = Some x -> h' !! i = Some x).
Proof.
  intros Hnode Hop Hkind Hl Hr Hp base h'.
  pose proof (lookup_lt_Some _ _ _ Hp) as Hplt.
  set (h1 := h ++ decimalCallNodes base l method r) in *.
  assert (Hp1 : h1 !! p = Some pn) by (by apply lookup_app_l_Some).
  assert (Hplt1 : p < List.length h1)
    by (subst h1; rewrite length_app; lia).
  assert (Hother : forall i x, i <> p -> h1 !! i = Some x -> h' !! i = Some x).
  { intros i x Hne Hi. subst h'. by rewrite attached_lookup_ne. }
  split; [by eapply visit_arithmetic_literals|].
  split.
  { destruct (lookup_decimalCallNodes h l r method)
      as (Hdecimal & Hconstruct & Hmethod & Haccess & Hcall).
    fold base in Hdecimal, Hconstruct, Hmethod, Haccess, Hcall.
    fold h1 in Hdecimal, Hconstruct, Hmethod, Haccess, Hcall.
    assert (Hlit : forall i t, h !! i = Some (MkNumericLiteral t) ->
                   h' !! i = Some (MkNumericLiteral t)).
    { intros i t Hi.
      apply (attached_lookup_other p i _ pn _ h1 Hp1);
        [by apply lookup_app_l_Some|discriminate|discriminate]. }
    apply (treeOf_decimalCall 0 h' _ (base + 3) (base + 1) base (base + 2)
             l r method);
      try (apply Hother; [subst base; lia|assumption]).
    - by rewrite (treeOf_node _ _ _ _ (Hlit _ _ Hl)).
    - by rewrite (treeOf_node _ _ _ _ (Hlit _ _ Hr)). }
  split; [|split; [|split]].
  - intros name init ->. subst h'. simpl. by apply list_lookup_insert_eq.
  - intros callee args ->. subst h'. simpl. by apply list_lookup_insert_eq.
  - intros Hd Hc. subst h'. destruct pn; simpl in *; congruence.
  - intros i x Hne Hi. apply Hother; [exact Hne|].
    by apply lookup_app_l_Some.
Qed.

Lemma decimalifyChild_arithmetic_literals_witness :
  decimalifyChild 4 4 (Some 5) Samples.declaration
  = Returns tt
      (<[5 := MkVariableDeclaration 0 (Some 14)]>
         (Samples.declaration ++ decimalCallNodes 10 1 "plus" 3))
  /\ treeOf 4
       (<[5 := MkVariableDeclaration 0 (Some 14)]>
          (Samples.declaration ++ decimalCallNodes 10 1 "plus" 3)) 14
     = Some (decimalCall (TNumericLiteral "1") "plus" (TNumericLiteral "2")).
Proof.
  destruct (decimalifyChild_arithmetic_literals 0 Samples.declaration 4 5 1 2 3
              (MkToken PlusToken) (MkVariableDeclaration 0 (Some 4))
              "plus" "1" "2" eq_refl eq_refl ltac:(set_solver)
              eq_refl eq_refl eq_refl) as (H1 & H2 & _).
  split; [exact H1|exact H2].
Defined.

(** X19.  A call [f(a1 op1 b1, a2 op2 b2)] with an identifier as callee
    and two arithmetic expressions over numeric literals as arguments:
    after the visit of the call its argument list holds one element, the
    rewrite of the second argument.  The rewrite of the first argument was
    built and attached, then replaced; it stays in the store with no node
    referring to it. *)
Theorem decimalifyChild_last_argument_wins
    (fuel : nat) (h : list Node) (p : option nat)
    (c callee n1 l1 op1 r1 n2 l2 op2 r2 : nat) (f : JsValue)
    (tok1 tok2 : Node) (m1 m2 a1 b1 a2 b2 : string) :
  h !! c = Some (MkCallExpression callee [n1; n2]) ->
  h !! callee = Some (MkIdentifier f) ->
  h !! n1 = Some (MkBinaryExpression l1 op1 r1) ->
  h !! op1 = Some tok1 -> (kind tok1, m1) ∈ arithmetic ->
  h !! l1 = Some (MkNumericLiteral a1) ->
  h !! r1 = Some (MkNumericLiteral b1) ->
  h !! n2 = Some (MkBinaryExpression l2 op2 r2) ->
  h !! op2 = Some tok2 -> (kind tok2, m2) ∈ arithmetic ->
  h !! l2 = Some (MkNumericLiteral a2) ->
  h !! r2 = Some (MkNumericLiteral b2) ->
  let base := List.length h in
  let first :=
    <[c := MkCallExpression callee [base + 4]]>
      (h ++ decimalCallNodes base l1 m1 r1) in
  let second :=
    <[c := MkCallExpression callee [base + 9]]>
      (first ++ decimalCallNodes (base + 5) l2 m2 r2) in
  decimalifyChild (S (S (S (S (S fuel))))) c p h = Returns tt second
  /\ second !! c = Some (MkCallExpression callee [base + 9])
  /\ treeOf 4 second (base + 9)
     = Some (decimalCall (TNumericLiteral a2) m2 (TNumericLiteral b2)).
Proof.
  intros Hc Hcallee Hn1 Hop1 Hk1 Hl1 Hr1 Hn2 Hop2 Hk2 Hl2 Hr2 base first second.
  pose proof (lookup_lt_Some _ _ _ Hc) as Hclt.
  assert (Hlen1 : List.length first = base + 5).
  { subst first. rewrite length_insert, length_app. reflexivity. }
  assert (Hkeep : forall i x, h !! i = Some x -> i <> c -> first !! i = Some x).
  { intros i x Hi Hne. subst first.
    rewrite list_lookup_insert_ne by congruence. by apply lookup_app_l_Some. }
  assert (Hc1 : first !! c = Some (MkCallExpression callee [base + 4])).
  { subst first. apply list_lookup_insert_eq. rewrite length_app. lia. }
  assert (Hvisit1 :
    decimalifyChild (S (S (S (S fuel)))) n1 (Some c) h = Returns tt first).
  { apply (visit_arithmetic_literals fuel h n1 c l1 op1 r1 tok1
             (MkCallExpression callee [n1; n2]) m1 a1 b1); assumption. }
  assert (Hvisit2 :
    decimalifyChild (S (S (S (S fuel)))) n2 (Some c) first = Returns tt second).
  { pose proof (visit_arithmetic_literals fuel first n2 c l2 op2 r2 tok2
                  (MkCallExpression callee [base + 4]) m2 a2 b2) as H.
    cbv zeta in H. rewrite Hlen1 in H.
    replace (base + 5 + 4) with (base + 9) in H by lia.
    assert (Hop2c : op2 <> c).
    { intros ->. rewrite Hc in Hop2. injection Hop2 as <-.
      apply operatorMethod_Some in Hk2. discriminate. }
    apply H; try assumption;
      apply Hkeep; try assumption; congruence. }
  assert (Hvisit0 :
    decimalifyChild (S (S (S (S fuel)))) callee (Some c) h = Returns tt h).
  { apply decimalifyChild_plain. eapply (plain_leaf _ h callee);
      [exact Hcallee|reflexivity|discriminate|discriminate]. }
  assert (Hnode : decimalifyNode (S (S (S (S fuel)))) c p h = Returns c h).
  { destruct p as [p|]; [|reflexivity].
    apply (decimalifyNode_parent _ c p (Some c) h h h); [|apply attach_same].
    unfold applyRule. rewrite (bind_deref _ _ _ _ Hc). cbn [kind].
    rewrite (bind_returns _ _ h h c); [reflexivity|].
    unfold rewriteCallExpression.
    by rewrite (bind_deref _ _ _ _ Hc), (bind_deref _ _ _ _ Hcallee). }
  split; [|split].
  - rewrite decimalifyChild_S, (bind_returns _ _ _ _ _ Hnode).
    revert Hvisit0 Hvisit1 Hvisit2.
    generalize (S (S (S (S fuel)))) as F. intros F Hvisit0 Hvisit1 Hvisit2.
    set (cb := fun (_ : unit) (child : nat) => decimalifyChild F child (Some c)).
    assert (Hv0 : visitNodes cb tt [callee] h = Returns tt h).
    { cbn [visitNodes]. subst cb. cbv beta.
      by rewrite (bind_returns _ _ _ _ _ Hvisit0). }
    assert (Hv1 : visitNodes cb tt [n1; n2] h = Returns tt second).
    { cbn [visitNodes]. subst cb. cbv beta.
      rewrite (bind_returns _ _ _ _ _ Hvisit1).
      by rewrite (bind_returns _ _ _ _ _ Hvisit2). }
    clearbody cb.
    unfold forEachChild. rewrite (bind_deref _ _ _ _ Hc).
    cbn [fields List.length seq visitFields].
    rewrite (bind_deref _ _ _ _ Hc).
    cbn [fields lookup list_lookup default from_option id].
    rewrite (bind_returns _ _ _ _ _ Hv0).
    rewrite (bind_deref _ _ _ _ Hc).
    cbn [fields lookup list_lookup default from_option id].
    by rewrite (bind_returns _ _ _ _ _ Hv1).
  - subst second. apply list_lookup_insert_eq.
    rewrite length_app, Hlen1. lia.
  - pose proof (lookup_decimalCallNodes first l2 r2 m2) as Hnew.
    cbv zeta in Hnew. rewrite Hlen1 in Hnew.
    destruct Hnew as (Hd & Hn & Hm & Ha & Hcall).
    assert (Hsecond : forall i x,
               (first ++ decimalCallNodes (base + 5) l2 m2 r2) !! i = Some x ->
               i <> c -> second !! i = Some x).
    { intros i x Hi Hne. subst second. by rewrite list_lookup_insert_ne by congruence. }
    assert (Hold : forall i x, h !! i = Some x -> i <> c -> second !! i = Some x).
    { intros i x Hi Hne. apply Hsecond; [|exact Hne].
      apply lookup_app_l_Some. by apply Hkeep. }
    replace (base + 9) with (base + 5 + 4) by lia.
    apply (treeOf_decimalCall 0 second _ (base + 5 + 3) (base + 5 + 1) (base + 5)
             (base + 5 + 2) l2 r2 m2);
      try (apply Hsecond; [assumption|lia]).
    + rewrite (treeOf_node _ _ _ _ (Hold _ _ Hl2 ltac:(congruence))). reflexivity.
    + rewrite (treeOf_node _ _ _ _ (Hold _ _ Hr2 ltac:(congruence))). reflexivity.
Qed.

Lemma decimalifyChild_last_argument_wins_witness :
  exists second,
    decimalifyChild 5 9 (Some 10) Samples.twoArguments = Returns tt second
    /\ second !! 9 = Some (MkCallExpression 0 [22])
    /\ treeOf 4 second 22
       = Some (decimalCall (TNumericLiteral "3") "times" (TNumericLiteral "4")).
Proof.
  eexists.
  apply (decimalifyChild_last_argument_wins 0 Samples.twoArguments (Some 10)
           9 0 4 1 2 3 8 5 6 7 (JsString "f")
           (MkToken PlusToken) (MkToken AsteriskToken) "plus" "times"
           "1" "2" "3" "4");
    first [reflexivity | set_solver].
Defined.
